(** * A verification model of the document-search service

    The first part embeds the Python sources:
    - [app/config.py]                            -> [Settings]
    - [app/services/chunking_service.py]         -> module [Chunking]
    - [app/services/vector_db_service.py],
      [app/services/embedding_service.py],
      [app/services/rag_service.py],
      [app/services/text_extraction_service.py],
      [app/services/document_service.py],
      [app/routes/query.py],
      [app/routes/documents.py]                  -> section [Service]
    The second part states and proves their properties.

    Python values are modelled as follows.  A [str] is a list of Unicode
    code points, an [int] is a [Z], a list is a [list], a value that may
    be [None] is an [option].  Calls into third-party libraries and
    remote services (the HTTP clients, the vector store client, the file
    system, the relational session) are fields of an environment record:
    the code under verification is the control flow around them. *)

From Stdlib Require Import String Ascii DecimalString DecimalNat.
From Stdlib Require Strings.Byte.
From Stdlib Require Import List ZArith NArith Lia Bool.
Import ListNotations.

Set Implicit Arguments.
Local Open Scope Z_scope.

(** ** Python strings *)

Module PyStr.

(** A character is a Unicode code point. *)
Definition char := N.
Definition str := list char.

(** A literal of the source, written as a Rocq string. *)
Definition lit (s : string) : str :=
  List.map N_of_ascii (list_ascii_of_string s).

(** Equality on [str], as [==] of Python. *)
Definition str_eqb (a b : str) : bool :=
  if list_eq_dec N.eq_dec a b then true else false.

(** [c.isspace()] for one code point: the table CPython uses for
    [str.split()] and [str.strip()] without arguments. *)
Definition is_space (c : char) : bool :=
  (((9 <=? c) && (c <=? 13)) ||
   ((28 <=? c) && (c <=? 32)) ||
   (c =? 133) || (c =? 160) || (c =? 5760) ||
   ((8192 <=? c) && (c <=? 8202)) ||
   (c =? 8232) || (c =? 8233) || (c =? 8239) || (c =? 8287) ||
   (c =? 12288))%N.

(** [s.split()]: the scan keeps the word being read in [word]; a white
    space character closes it when it is not empty. *)
Fixpoint split_from (word : str) (s : str) : list str :=
  match s with
  | [] => match word with [] => [] | _ => [word] end
  | c :: rest =>
      if is_space c
      then match word with
           | [] => split_from [] rest
           | _ => word :: split_from [] rest
           end
      else split_from (word ++ [c]) rest
  end.

Definition split (s : str) : list str := split_from [] s.

(** [s.lstrip()], [s.rstrip()], [s.strip()]. *)
Fixpoint lstrip (s : str) : str :=
  match s with
  | [] => []
  | c :: rest => if is_space c then lstrip rest else s
  end.

Definition rstrip (s : str) : str := rev (lstrip (rev s)).

Definition strip (s : str) : str := rstrip (lstrip s).

(** [sep.join(parts)]. *)
Fixpoint join (sep : str) (parts : list str) : str :=
  match parts with
  | [] => []
  | [p] => p
  | p :: ps => p ++ sep ++ join sep ps
  end.

(** [str(n)] for a non-negative [int]. *)
Definition str_of_nat (n : nat) : str :=
  lit (NilEmpty.string_of_uint (Nat.to_uint n)).

(** [len(l)] as a Python [int]. *)
Definition len {A} (l : list A) : Z := Z.of_nat (List.length l).

(** [l[start:]] with Python's treatment of negative and out-of-range
    starts. *)
Definition slice_from {A} (start : Z) (l : list A) : list A :=
  let i := if start <? 0 then Z.max (start + len l) 0
           else Z.min start (len l) in
  skipn (Z.to_nat i) l.

(** Truth value of a list: [if l:]. *)
Definition truthy {A} (l : list A) : bool :=
  match l with [] => false | _ => true end.

(** A word is what [split] produces: not empty, and free of white
    space. *)
Definition is_word (w : str) : Prop :=
  w <> [] /\ forallb (fun c => negb (is_space c)) w = true.

(** [text.strip()] is not empty exactly when [text] has a character
    that is not white space. *)
Definition has_non_space (s : str) : Prop :=
  exists c, In c s /\ is_space c = false.

End PyStr.
Import PyStr.

(** ** app/config.py: the settings the modelled code reads *)

Record Settings := {
  OPENROUTER_API_KEY : str;
  LLM_MODEL : str;
  STORAGE_PATH : str;
  CHUNK_SIZE : Z;
  CHUNK_OVERLAP : Z;
  DEFAULT_TOP_K : Z;
  MAX_TOP_K : Z
}.

(** ** app/services/chunking_service.py *)

Module Chunking.

(** The loop variables of [chunk_text]. *)
Record loop_state := {
  chunks : list str;
  current_chunk : list str;
  current_length : Z
}.

(** [len(word) // 4] *)
Definition word_cost (word : str) : Z := len word / 4.

(** [sum(len(w) // 4 for w in ws)] *)
Definition sum_cost (ws : list str) : Z :=
  fold_left Z.add (List.map word_cost ws) 0.

(** [current_chunk[-overlap:] if len(current_chunk) > overlap
     else current_chunk] *)
Definition overlap_words (overlap : Z) (cur : list str) : list str :=
  if len cur >? overlap then slice_from (- overlap) cur else cur.

(** One iteration of [for word in words]. *)
Definition step (chunk_size overlap : Z) (st : loop_state) (word : str)
  : loop_state :=
  let word_length := word_cost word in
  if (current_length st + word_length >? chunk_size)
     && truthy (current_chunk st)
  then
    let cur := overlap_words overlap (current_chunk st) ++ [word] in
    {| chunks := chunks st ++ [join (lit " ") (current_chunk st)];
       current_chunk := cur;
       current_length := sum_cost cur |}
  else
    {| chunks := chunks st;
       current_chunk := current_chunk st ++ [word];
       current_length := current_length st + word_length |}.

Definition init : loop_state :=
  {| chunks := []; current_chunk := []; current_length := 0 |}.

(** [if x is None: x = default] *)
Definition or_default (x : option Z) (default : Z) : Z :=
  match x with None => default | Some n => n end.

(** The statements after the loop. *)
Definition finish (st : loop_state) : list str :=
  if truthy (current_chunk st)
  then chunks st ++ [join (lit " ") (current_chunk st)]
  else chunks st.

(** [ChunkingService.chunk_text(text, chunk_size=None, overlap=None)] *)
Definition chunk_text (settings : Settings) (text : str)
           (chunk_size overlap : option Z) : list str :=
  let chunk_size := or_default chunk_size (CHUNK_SIZE settings) in
  let overlap := or_default overlap (CHUNK_OVERLAP settings) in
  let words := split text in
  finish (fold_left (step chunk_size overlap) words init).

End Chunking.

(** ** Exceptions, outcomes and the state of the outside world *)

Module Py.

(** The exceptions the modelled code raises or lets through. *)
Inductive exn :=
| ValueError (msg : str)
| Exception (msg : str)
| KeyError (key : str)
| TypeError (msg : str)
| IndexError (msg : str)
| LibraryError (cls msg : str).

(** [str(e)] *)
Definition exn_str (e : exn) : str :=
  match e with
  | ValueError m | Exception m | TypeError m | IndexError m => m
  | KeyError k => lit "'" ++ k ++ lit "'"
  | LibraryError _ m => m
  end.

(** A value stored under a key of a dict returned by a library: the key
    may be absent, or hold [None]. *)
Inductive entry (A : Type) :=
| Missing
| PyNone
| Val (a : A).
Arguments Missing {A}.
Arguments PyNone {A}.

Definition not_subscriptable : exn :=
  TypeError (lit "'NoneType' object is not subscriptable").
Definition index_out_of_range : exn :=
  IndexError (lit "list index out of range").

(** [d[key][0]] *)
Definition subscript_first {A} (key : str) (e : entry (list A))
  : exn + A :=
  match e with
  | Missing => inl (KeyError key)
  | PyNone => inl not_subscriptable
  | Val [] => inl index_out_of_range
  | Val (x :: _) => inr x
  end.

(** [d.get(key, default)[0]] *)
Definition get_default_first {A} (e : entry (list A)) (default : list A)
  : exn + A :=
  match e with
  | Missing => match default with
               | [] => inl index_out_of_range
               | x :: _ => inr x
               end
  | PyNone => inl not_subscriptable
  | Val [] => inl index_out_of_range
  | Val (x :: _) => inr x
  end.

(** [range(n)] *)
Definition range (n : Z) : list Z :=
  List.map Z.of_nat (seq 0 (Z.to_nat n)).

(** [str(i)] for an [int]. *)
Definition str_of_int (i : Z) : str :=
  if i <? 0 then lit "-" ++ str_of_nat (Z.to_nat (- i))
  else str_of_nat (Z.to_nat i).

(** [needle in haystack] on strings. *)
Fixpoint starts_with (prefix s : str) : bool :=
  match prefix, s with
  | [], _ => true
  | p :: ps, c :: cs => (p =? c)%N && starts_with ps cs
  | _ :: _, [] => false
  end.

Fixpoint contains (needle s : str) : bool :=
  starts_with needle s ||
  match s with
  | [] => false
  | _ :: rest => contains needle rest
  end.

(** [zip(a, b, c)] *)
Fixpoint zip3 {A B C} (a : list A) (b : list B) (c : list C)
  : list (A * B * C) :=
  match a, b, c with
  | x :: a', y :: b', z :: c' => (x, y, z) :: zip3 a' b' c'
  | _, _, _ => []
  end.

End Py.
Import Py.

(** ** The service

    Python floats are kept abstract: the code only subtracts them from [1]
    and rounds them, and these operations belong to the environment. *)

Section Service.

Variable float : Type.

Definition bytes := list Byte.byte.

(** *** app/models.py: the columns [create_document] fills in *)
Record Document := {
  document_id : str;
  original_filename : str;
  file_path : str;
  file_type : str;
  extracted_text : str;
  chunk_count : Z
}.

(** Values of a chunk's metadata dict. *)
Inductive mvalue :=
| MStr (s : str)
| MInt (i : Z).

Definition metadata := list (str * mvalue).

(** [meta[key]] *)
Fixpoint dict_get (key : str) (d : metadata) : exn + mvalue :=
  match d with
  | [] => inl (KeyError key)
  | (k, v) :: rest => if str_eqb k key then inr v else dict_get key rest
  end.

(** What the vector store client returns from [collection.query]. *)
Record QueryResult := {
  qr_ids : entry (list (list str));
  qr_documents : entry (list (list str));
  qr_metadatas : entry (list (list metadata));
  qr_distances : entry (list (list float))
}.

(** What the vector store client returns from [collection.get]. *)
Record GetResult := {
  gr_ids : entry (list str);
  gr_documents : entry (list str)
}.

(** The response of the embeddings endpoint: status, body text, and the
    outcome of [[item["embedding"] for item in response.json()["data"]]]. *)
Record EmbeddingsResponse := {
  emb_status_code : Z;
  emb_text : str;
  emb_data : exn + list (list float)
}.

(** The response of the chat endpoint; [chat_error_message] is
    [response.json().get("error", {}).get("message")] and [chat_content]
    is [response.json()["choices"][0]["message"]["content"]]. *)
Record ChatResponse := {
  chat_status_code : Z;
  chat_text : str;
  chat_error_message : exn + option str;
  chat_content : exn + str
}.

(** Calls that leave the process, in the order they are made. *)
Inductive Call :=
| CallOpenWrite (path : str) (content : bytes)
| CallEmbeddings (input : str + list str)
| CallChat (system_message prompt : str)
| CallCollectionAdd (ids : list str) (embeddings : list (list float))
                    (documents : list str) (metadatas : list metadata)
| CallCollectionQuery (query_embedding : list float) (n_results : Z)
| CallCollectionGet (ids : list str)
| CallCollectionGetWhere (doc_id : str)
| CallCollectionDelete (ids : list str)
| CallCommit (doc : Document).

(** The world outside the process. *)
Record World := {
  files : list (str * bytes);
  rows : list Document;
  calls : list Call
}.

(** *** app/services/vector_db_service.py: the service object *)
Inductive handle := Handle.

Record VectorDBService := {
  client : option handle;
  collection : option handle
}.

(** The environment: configuration, the module-level
    [vector_db_service] ([None] when its constructor raised), and the
    behaviour of everything outside the repository.  An outside call
    answers as a function of the calls made so far. *)
Record Env := {
  float_of_int : Z -> float;            (* an [int] used as a [float] *)
  fsub : float -> float -> float;       (* [a - b] *)
  fround : float -> Z -> float;         (* [round(x, ndigits)] *)
  settings : Settings;
  vector_db_service : option VectorDBService;
  PDF_AVAILABLE : bool;
  DOCX_AVAILABLE : bool;
  str_lower : str -> str;
  os_path_join : str -> str -> str;
  decode_utf8 : bytes -> exn + str;
  pdf_page_texts : bytes -> exn + list str;
  docx_paragraph_texts : bytes -> exn + list str;
  open_write : list Call -> str -> bytes -> option exn;
  post_embeddings : list Call -> str + list str -> exn + EmbeddingsResponse;
  post_chat : list Call -> str -> str -> exn + ChatResponse;
  collection_add : list Call -> list str -> list (list float) ->
                   list str -> list metadata -> option exn;
  collection_query : list Call -> list float -> Z -> exn + QueryResult;
  collection_get : list Call -> list str -> exn + GetResult;
  collection_get_where : list Call -> str -> exn + GetResult;
  collection_delete : list Call -> list str -> option exn;
  session_commit : list Call -> Document -> option exn
}.

(** *** A state monad with exceptions *)
Definition M (E A : Type) : Type := World -> (E + A) * World.

Definition ret {E A} (a : A) : M E A := fun w => (inr a, w).

Definition raise {E A} (e : E) : M E A := fun w => (inl e, w).

Definition bind {E A B} (m : M E A) (k : A -> M E B) : M E B :=
  fun w => match m w with
           | (inl e, w') => (inl e, w')
           | (inr a, w') => k a w'
           end.

(** A pure computation that may raise. *)
Definition lift {A} (r : exn + A) : M exn A := fun w => (r, w).

(** [try: m except Exception as e: handler e] *)
Definition try_except {E E' A} (m : M E A) (handler : E -> M E' A)
  : M E' A :=
  fun w => match m w with
           | (inl e, w') => handler e w'
           | (inr a, w') => (inr a, w')
           end.

Definition log (c : Call) (w : World) : World :=
  {| files := files w; rows := rows w; calls := calls w ++ [c] |}.

(** An outside call that returns a value or raises. *)
Definition call {A} (c : Call) (answer : list Call -> exn + A)
  : M exn A :=
  fun w => (answer (calls w), log c w).

(** An outside call made for its effect. *)
Definition command (c : Call) (answer : list Call -> option exn)
           (effect : World -> World) : M exn unit :=
  fun w => match answer (calls w) with
           | Some e => (inl e, log c w)
           | None => (inr tt, effect (log c w))
           end.

Declare Scope py_scope.
Delimit Scope py_scope with py.
Notation "x <- m ;; k" := (bind m (fun x => k))
  (at level 61, m at next level, right associativity) : py_scope.
Notation "m ;;; k" := (bind m (fun _ => k))
  (at level 61, right associativity) : py_scope.
Local Open Scope py_scope.

Variable env : Env.

(** *** app/services/vector_db_service.py *)

Definition not_initialized : exn :=
  Exception (lit "Vector database not initialized").

(** [VectorDBService.add_documents] *)
Definition add_documents (self : VectorDBService) (doc_id : str)
           (chunk_ids : list str) (embeddings : list (list float))
           (chunks : list str) (metadatas : list metadata)
  : M exn unit :=
  match collection self with
  | None => raise not_initialized
  | Some _ =>
      command (CallCollectionAdd chunk_ids embeddings chunks metadatas)
              (fun h => collection_add env h chunk_ids embeddings chunks
                                       metadatas)
              (fun w => w)
  end.

(** [VectorDBService.query]; the routes never pass [filter_dict]. *)
Definition query (self : VectorDBService) (query_embedding : list float)
           (n_results : Z) : M exn QueryResult :=
  match collection self with
  | None => raise not_initialized
  | Some _ =>
      call (CallCollectionQuery query_embedding n_results)
           (fun h => collection_query env h query_embedding n_results)
  end.

(** [VectorDBService.get_chunks] *)
Definition get_chunks (self : VectorDBService) (chunk_ids : list str)
  : M exn GetResult :=
  match collection self with
  | None => raise not_initialized
  | Some _ =>
      call (CallCollectionGet chunk_ids)
           (fun h => collection_get env h chunk_ids)
  end.

(** [VectorDBService.delete_document] *)
Definition delete_document (self : VectorDBService) (doc_id : str)
  : M exn unit :=
  match collection self with
  | None => raise not_initialized
  | Some _ =>
      results <- call (CallCollectionGetWhere doc_id)
                      (fun h => collection_get_where env h doc_id) ;;
      ids <- lift (match gr_ids results with
                   | Missing => inl (KeyError (lit "ids"))
                   | PyNone => inr []
                   | Val l => inr l
                   end) ;;
      if truthy ids
      then command (CallCollectionDelete ids)
                   (fun h => collection_delete env h ids)
                   (fun w => w)
      else ret tt
  end.

(** *** app/services/embedding_service.py *)

Definition api_key_not_set : exn :=
  ValueError (lit "OPENROUTER_API_KEY is not set. Please set it in your environment variables.").

(** The part the two functions share: the key check, the request and
    the status check. *)
Definition embeddings_request (input : str + list str)
  : M exn (list (list float)) :=
  if negb (truthy (OPENROUTER_API_KEY (settings env)))
  then raise api_key_not_set
  else
    response <- call (CallEmbeddings input)
                     (fun h => post_embeddings env h input) ;;
    if negb (emb_status_code response =? 200)
    then raise (Exception (lit "Embedding API error: "
                             ++ emb_text response))
    else lift (emb_data response).

(** [EmbeddingService.get_embedding] *)
Definition get_embedding (text : str) : M exn (list float) :=
  data <- embeddings_request (inl text) ;;
  match data with
  | [] => raise index_out_of_range
  | e :: _ => ret e
  end.

(** [EmbeddingService.get_embeddings_batch] *)
Definition get_embeddings_batch (texts : list str)
  : M exn (list (list float)) :=
  embeddings_request (inr texts).

(** *** app/services/rag_service.py *)

Definition nl : str := [10%N].

Definition system_message : str :=
  lit "You are a helpful assistant that answers questions based on provided context documents.".

(** [[f"[Chunk {i+1}]: {chunk}" for i, chunk in enumerate(chunks)]] *)
Fixpoint labelled (i : Z) (context_chunks : list str) : list str :=
  match context_chunks with
  | [] => []
  | chunk :: rest =>
      (lit "[Chunk " ++ str_of_int (i + 1) ++ lit "]: " ++ chunk)
        :: labelled (i + 1) rest
  end.

Definition build_prompt (question : str) (context_chunks : list str)
  : str :=
  let context := join (nl ++ nl) (labelled 0 context_chunks) in
  lit "You are a helpful assistant that answers questions based on the provided context documents."
    ++ nl ++ nl
    ++ lit "Context Documents:" ++ nl
    ++ context ++ nl ++ nl
    ++ lit "Question: " ++ question ++ nl ++ nl
    ++ lit "Instructions:" ++ nl
    ++ lit "- Answer the question based ONLY on the provided context" ++ nl
    ++ lit "- If the context doesn't contain enough information, say so" ++ nl
    ++ lit "- Cite which chunks you used in your answer" ++ nl
    ++ lit "- Be concise and accurate" ++ nl ++ nl
    ++ lit "Answer:".

(** [RAGService.generate_answer]; the result is the pair
    [(answer, model)]. *)
Definition generate_answer (question : str) (context_chunks : list str)
  : M exn (str * str) :=
  if negb (truthy (OPENROUTER_API_KEY (settings env)))
  then raise api_key_not_set
  else
    let prompt := build_prompt question context_chunks in
    response <- call (CallChat system_message prompt)
                     (fun h => post_chat env h system_message prompt) ;;
    if chat_status_code response =? 401 then
      error_msg <-
        (if truthy (chat_text response)
         then m <- lift (chat_error_message response) ;;
              ret (match m with
                   | Some msg => msg
                   | None => lit "Authentication failed"
                   end)
         else ret (lit "Authentication failed")) ;;
      raise (ValueError
               (lit "OpenRouter API authentication failed: " ++ error_msg
                ++ lit ". Please check your OPENROUTER_API_KEY."))
    else if negb (chat_status_code response =? 200) then
      raise (Exception
               (lit "LLM API error (status "
                ++ str_of_int (chat_status_code response) ++ lit "): "
                ++ chat_text response))
    else
      answer <- lift (chat_content response) ;;
      ret (answer, LLM_MODEL (settings env)).

(** *** app/services/text_extraction_service.py *)

(** [text = ""; for t in parts: text += t + "\n"; return text.strip()] *)
Definition concat_lines (parts : list str) : str :=
  strip (fold_left (fun text t => text ++ t ++ nl) parts []).

Definition _extract_from_pdf (file_content : bytes) : exn + str :=
  if negb (PDF_AVAILABLE env)
  then inl (Exception (lit "PyPDF2 not installed. Install with: pip install PyPDF2"))
  else match pdf_page_texts env file_content with
       | inl e => inl e
       | inr pages => inr (concat_lines pages)
       end.

Definition _extract_from_docx (file_content : bytes) : exn + str :=
  if negb (DOCX_AVAILABLE env)
  then inl (Exception (lit "python-docx not installed. Install with: pip install python-docx"))
  else match docx_paragraph_texts env file_content with
       | inl e => inl e
       | inr paragraphs => inr (concat_lines paragraphs)
       end.

(** [TextExtractionService.extract_text] *)
Definition extract_text (file_content : bytes) (file_type : str)
  : exn + str :=
  let file_type_lower := str_lower env file_type in
  if contains (lit "pdf") file_type_lower then
    _extract_from_pdf file_content
  else if contains (lit "wordprocessingml") file_type_lower
          || contains (lit "docx") file_type_lower then
    _extract_from_docx file_content
  else if contains (lit "text/plain") file_type_lower
          || str_eqb file_type_lower (lit "txt") then
    decode_utf8 env file_content
  else inl (ValueError (lit "Unsupported file type: " ++ file_type)).

(** *** app/services/document_service.py *)

(** The statements of [create_document] that can raise. *)
Inductive site :=
| AtOpenWrite        (* with open(file_path, "wb") as f: f.write(...) *)
| AtExtractText      (* text_extraction_service.extract_text(...) *)
| AtNoText           (* raise ValueError("No text extracted ...") *)
| AtNoChunks         (* raise ValueError("No chunks created ...") *)
| AtEmbeddings       (* await embedding_service.get_embeddings_batch *)
| AtAddDocuments     (* vector_db_service.add_documents(...) *)
| AtCommit.          (* db.add(doc); db.commit(); db.refresh(doc) *)

Definition at_site {A} (s : site) (m : M exn A) : M (site * exn) A :=
  try_except m (fun e => raise (s, e)).

(** [f"{document_id}_chunk_{i}"] *)
Definition chunk_id_of (doc_id : str) (i : Z) : str :=
  doc_id ++ lit "_chunk_" ++ str_of_int i.

Definition chunk_metadata (doc_id filename : str) (i : Z) : metadata :=
  [ (lit "document_id", MStr doc_id);
    (lit "chunk_index", MInt i);
    (lit "filename", MStr filename) ].

Definition store_file (path : str) (content : bytes) (w : World)
  : World :=
  {| files := (path, content) :: files w;
     rows := rows w;
     calls := calls w |}.

Definition store_row (doc : Document) (w : World) : World :=
  {| files := files w; rows := rows w ++ [doc]; calls := calls w |}.

(** The file extension [create_document] determines from the MIME
    type. *)
Definition file_ext_of (ftype : str) : str :=
  let file_type_lower := str_lower env ftype in
  if contains (lit "pdf") file_type_lower then lit "pdf"
  else if contains (lit "wordprocessingml") file_type_lower
          || contains (lit "docx") file_type_lower then lit "docx"
  else lit "txt".

(** [os.path.join(settings.STORAGE_PATH, f"{document_id}.{file_ext}")] *)
Definition file_path_of (doc_id ftype : str) : str :=
  os_path_join env (STORAGE_PATH (settings env))
               (doc_id ++ lit "." ++ file_ext_of ftype).

(** [DocumentService.create_document]; [doc_id] is the value drawn by
    [str(uuid.uuid4())].

    [AtOpenWrite] stands for the whole [with open(...) as f: f.write(...)]
    block and [AtCommit] for [db.add], [db.commit] and [db.refresh]
    together: each is one outside call, which takes effect and returns,
    or raises with no effect recorded.  A failure between [open] and the
    end of [f.write], or between [db.commit] and the end of
    [db.refresh], can leave a file or a row behind; the model does not
    tell these apart, so the statements about failing runs say nothing
    of the file store after a failure at [AtOpenWrite] nor of the table
    after a failure at [AtCommit]. *)
Definition create_document (doc_id filename : str)
           (file_content : bytes) (ftype : str)
  : M (site * exn) Document :=
  let file_ext := file_ext_of ftype in
  let path := file_path_of doc_id ftype in
  at_site AtOpenWrite
    (command (CallOpenWrite path file_content)
             (fun h => open_write env h path file_content)
             (store_file path file_content)) ;;;
  text <- at_site AtExtractText (lift (extract_text file_content ftype)) ;;
  if negb (truthy (strip text))
  then raise (AtNoText, ValueError (lit "No text extracted from document"))
  else
    let chunks := Chunking.chunk_text (settings env) text None None in
    if negb (truthy chunks)
    then raise (AtNoChunks,
                ValueError (lit "No chunks created from document"))
    else
      embeddings <- at_site AtEmbeddings (get_embeddings_batch chunks) ;;
      let chunk_ids := List.map (chunk_id_of doc_id) (range (len chunks)) in
      let metadatas :=
        List.map (chunk_metadata doc_id filename) (range (len chunks)) in
      (match vector_db_service env with
       | Some service =>
           at_site AtAddDocuments
             (add_documents service doc_id chunk_ids embeddings chunks
                            metadatas)
       | None => ret tt
       end) ;;;
      let doc := {| document_id := doc_id;
                    original_filename := filename;
                    file_path := path;
                    file_type := file_ext;
                    extracted_text := text;
                    chunk_count := len chunks |} in
      at_site AtCommit
        (command (CallCommit doc)
                 (fun h => session_commit env h doc)
                 (store_row doc)) ;;;
      ret doc.

(** [DocumentService.get_document]: the first row with that id. *)
Definition lookup_document (doc_id : str) (w : World) : option Document :=
  find (fun d => str_eqb (document_id d) doc_id) (rows w).

(** *** app/schemas.py *)
Record QueryRequest := {
  question : str;
  top_k : Z
}.

Record ChunkInfo := {
  chunk_id : str;
  text : str;
  similarity_score : float
}.

Record QueryResponse := {
  answer : str;
  chunks_used : list ChunkInfo;
  document_ids : list str;
  model : str
}.

Record DocumentDetail := {
  detail_document : Document;
  detail_chunks : list (str * str)
}.

Record HTTPException := {
  status_code : Z;
  detail : str
}.

(** *** app/routes/query.py *)

Definition no_documents_answer : str :=
  lit "No relevant documents found in the database.".

(** The response of the route when the store returns no chunk. *)
Definition fallback_response : QueryResponse :=
  {| answer := no_documents_answer;
     chunks_used := [];
     document_ids := [];
     model := LLM_MODEL (settings env) |}.

(** [min(max(query_data.top_k, 1), settings.MAX_TOP_K)] *)
Definition clamp_top_k (k : Z) : Z :=
  Z.min (Z.max k 1) (MAX_TOP_K (settings env)).

(** [results.get("ids")] is falsy, or [results["ids"][0]] is. *)
Definition no_ids (results : QueryResult) : bool :=
  match qr_ids results with
  | Missing | PyNone | Val [] => true
  | Val (first :: _) => negb (truthy first)
  end.

(** [meta["document_id"]] for each returned chunk. *)
Fixpoint metadata_document_ids (metadatas : list metadata)
  : exn + list mvalue :=
  match metadatas with
  | [] => inr []
  | meta :: rest =>
      match dict_get (lit "document_id") meta with
      | inl e => inl e
      | inr v =>
          match metadata_document_ids rest with
          | inl e => inl e
          | inr vs => inr (v :: vs)
          end
      end
  end.

Definition mvalue_eq_dec (a b : mvalue) : {a = b} + {a <> b}.
Proof.
  decide equality; [apply (list_eq_dec N.eq_dec) | apply Z.eq_dec].
Defined.

(** The field [document_ids: List[str]] of the response accepts
    strings. *)
Fixpoint validate_strings (vs : list mvalue) : exn + list str :=
  match vs with
  | [] => inr []
  | MStr s :: rest =>
      match validate_strings rest with
      | inl e => inl e
      | inr ss => inr (s :: ss)
      end
  | MInt _ :: _ =>
      inl (LibraryError (lit "ValidationError")
                        (lit "Input should be a valid string"))
  end.

(** The body of the [try] block of [query_documents]. *)
Definition query_body (service : VectorDBService)
           (query_data : QueryRequest) : M exn QueryResponse :=
  let k := clamp_top_k (top_k query_data) in
  question_embedding <- get_embedding (question query_data) ;;
  results <- query service question_embedding k ;;
  if no_ids results then ret fallback_response
  else
    chunk_ids <- lift (subscript_first (lit "ids") (qr_ids results)) ;;
    chunks_text <- lift (subscript_first (lit "documents")
                                         (qr_documents results)) ;;
    metadatas <- lift (subscript_first (lit "metadatas")
                                       (qr_metadatas results)) ;;
    distances <- lift (get_default_first
                         (qr_distances results)
                         [repeat (float_of_int env 0)
                                 (List.length chunk_ids)]) ;;
    let similarity_scores :=
      List.map (fun dist => fsub env (float_of_int env 1) dist) distances in
    let used :=
      List.map (fun t => match t with
                         | (cid, ctext, score) =>
                             {| chunk_id := cid;
                                text := ctext;
                                similarity_score := fround env score 4 |}
                         end)
               (zip3 chunk_ids chunks_text similarity_scores) in
    ids <- lift (metadata_document_ids metadatas) ;;
    let unique_ids := nodup mvalue_eq_dec ids in
    answer_data <- generate_answer (question query_data) chunks_text ;;
    doc_ids <- lift (validate_strings unique_ids) ;;
    ret {| answer := fst answer_data;
           chunks_used := used;
           document_ids := doc_ids;
           model := snd answer_data |}.

(** [query_documents] *)
Definition query_documents (query_data : QueryRequest)
  : M HTTPException QueryResponse :=
  match vector_db_service env with
  | None =>
      raise {| status_code := 500;
               detail := lit "Vector database not available" |}
  | Some service =>
      try_except (query_body service query_data)
        (fun e => raise {| status_code := 500;
                           detail := lit "Query failed: " ++ exn_str e |})
  end.

(** *** app/routes/documents.py *)

(** The ids the detail route asks the vector store for. *)
Definition reconstructed_chunk_ids (doc_id : str) (doc : Document)
  : list str :=
  List.map (chunk_id_of doc_id) (range (chunk_count doc)).

(** [results.get(key, [])], to be iterated by [zip]. *)
Definition get_or_empty {A} (key : str) (e : entry (list A))
  : exn + list A :=
  match e with
  | Missing => inr []
  | PyNone => inl (TypeError (lit "'NoneType' object is not iterable"))
  | Val l => inr l
  end.

(** [get_document] *)
Definition get_document (doc_id : str) : M HTTPException DocumentDetail :=
  fun w =>
    match lookup_document doc_id w with
    | None => raise {| status_code := 404;
                       detail := lit "Document not found" |} w
    | Some doc =>
        (chunks_data <-
           match vector_db_service env with
           | Some service =>
               try_except
                 (results <- get_chunks service
                               (reconstructed_chunk_ids doc_id doc) ;;
                  ids <- lift (get_or_empty (lit "ids")
                                            (gr_ids results)) ;;
                  docs <- lift (get_or_empty (lit "documents")
                                             (gr_documents results)) ;;
                  ret (combine ids docs))
                 (fun _ => ret [])
           | None => ret []
           end ;;
         ret {| detail_document := doc;
                detail_chunks := chunks_data |}) w
    end.

(** [upload_document] *)

(** The uploaded file: [file.content_type], [file.filename] and the
    bytes [await file.read()] returns. *)
Record UploadFile := {
  content_type : option str;
  upload_filename : option str;
  upload_bytes : bytes
}.

(** What the route reads besides the environment: [settings.MAX_FILE_SIZE],
    the text of
    [f"File size exceeds {settings.MAX_FILE_SIZE / 1024 / 1024}MB limit"]
    (a float formatted by Python), and, for an exception raised by a
    library, whether its class derives from [ValueError]. *)
Record UploadContext := {
  MAX_FILE_SIZE : Z;
  size_limit_detail : str;
  derives_from_value_error : str -> bool
}.

Record DocumentUploadResponse := {
  upload_document_id : str;
  upload_message : str;
  upload_chunk_count : Z
}.

Definition supported_types : list str :=
  [lit "pdf"; lit "wordprocessingml"; lit "docx"; lit "text/plain"; lit "txt"].

(** Whether [except ValueError] catches the exception. *)
Definition is_value_error (ctx : UploadContext) (e : exn) : bool :=
  match e with
  | ValueError _ => true
  | LibraryError cls _ => derives_from_value_error ctx cls
  | _ => false
  end.

(** The two [except] clauses of [upload_document]. *)
Definition upload_error (ctx : UploadContext) (e : exn) : HTTPException :=
  let error_msg := exn_str e in
  if is_value_error ctx e then
    if contains (lit "OPENROUTER_API_KEY") error_msg
       || contains (lit "authentication") (str_lower env error_msg)
    then {| status_code := 401; detail := error_msg |}
    else {| status_code := 400; detail := error_msg |}
  else
    if contains (lit "authentication") (str_lower env error_msg)
       || contains (lit "401") error_msg
    then {| status_code := 401; detail := error_msg |}
    else {| status_code := 500;
            detail := lit "Upload failed: " ++ error_msg |}.

(** [file.filename or "document"] *)
Definition filename_or_default (file : UploadFile) : str :=
  match upload_filename file with
  | Some (c :: name) => c :: name
  | _ => lit "document"
  end.

Definition upload_document (ctx : UploadContext) (doc_id : str)
           (file : UploadFile)
  : M HTTPException DocumentUploadResponse :=
  match content_type file with
  | None | Some [] =>
      raise {| status_code := 400; detail := lit "File type not specified" |}
  | Some ctype =>
      let ftype := str_lower env ctype in
      if negb (existsb (fun t => contains t ftype) supported_types)
      then raise {| status_code := 400;
                    detail := lit "Only PDF, DOCX, and TXT files are supported" |}
      else
        let file_content := upload_bytes file in
        if len file_content >? MAX_FILE_SIZE ctx
        then raise {| status_code := 400;
                      detail := size_limit_detail ctx |}
        else
          try_except
            (doc <- create_document doc_id (filename_or_default file)
                                    file_content ftype ;;
             ret {| upload_document_id := document_id doc;
                    upload_message :=
                      lit "Document uploaded and indexed successfully";
                    upload_chunk_count := chunk_count doc |})
            (fun failure => raise (upload_error ctx (snd failure)))
  end.

End Service.

Arguments CallOpenWrite {float}.
Arguments CallEmbeddings {float}.
Arguments CallChat {float}.
Arguments CallCollectionGet {float}.
Arguments CallCollectionGetWhere {float}.
Arguments CallCollectionDelete {float}.
Arguments CallCommit {float}.

(** ** Observing the calls a run made *)

Section Observers.

Variable float : Type.

(** Requests sent to the LLM completion endpoint. *)
Definition is_chat_call (c : Call float) : bool :=
  match c with CallChat _ _ => true | _ => false end.

Definition chat_calls (cs : list (Call float)) : list (Call float) :=
  filter is_chat_call cs.

(** Calls that reach the vector store. *)
Definition is_index_call (c : Call float) : bool :=
  match c with
  | CallCollectionAdd _ _ _ _ | CallCollectionQuery _ _
  | CallCollectionGet _ | CallCollectionGetWhere _
  | CallCollectionDelete _ => true
  | _ => false
  end.

Definition index_calls (cs : list (Call float)) : list (Call float) :=
  filter is_index_call cs.

(** The chunk identifiers handed to [collection.add]. *)
Definition added_ids (cs : list (Call float)) : list str :=
  flat_map (fun c => match c with
                     | CallCollectionAdd ids _ _ _ => ids
                     | _ => []
                     end) cs.

(** The [n_results] of the queries sent to the vector store. *)
Definition queried_sizes (cs : list (Call float)) : list Z :=
  flat_map (fun c => match c with
                     | CallCollectionQuery _ n => [n]
                     | _ => []
                     end) cs.

(** The chunk identifiers a query result carries: [results["ids"][0]]
    when it is there. *)
Definition returned_ids (results : QueryResult float) : list str :=
  match qr_ids results with
  | Val (first :: _) => first
  | _ => []
  end.

End Observers.

(** ** What a query result carries *)

Section QueryObservers.

Variable float : Type.

(** [results["documents"][0]] when it is there. *)
Definition returned_texts (results : QueryResult float) : list str :=
  match qr_documents results with
  | Val (first :: _) => first
  | _ => []
  end.

(** [results["metadatas"][0]] when it is there. *)
Definition returned_metadatas (results : QueryResult float)
  : list metadata :=
  match qr_metadatas results with
  | Val (first :: _) => first
  | _ => []
  end.

(** The document of a chunk, by its metadata. *)
Definition source_of (meta : metadata) (doc_id : str) : Prop :=
  dict_get (lit "document_id") meta = inr (MStr doc_id).

End QueryObservers.

(** ** Chains: a relation between each element of a list and the next *)

Section ChainDef.

Variable A : Type.
Variable R : A -> A -> Prop.

Fixpoint chain_from (p : A) (l : list A) : Prop :=
  match l with
  | [] => True
  | x :: t => R p x /\ chain_from x t
  end.

Definition chain (l : list A) : Prop :=
  match l with
  | [] => True
  | x :: t => chain_from x t
  end.

End ChainDef.

(** ** The chunker on word lists, and the quantities its properties
    speak of *)

Module ChunkModel.
Import Chunking.

(** ** The quantities the properties speak of *)

(** The words of a chunk. *)
Definition words_of (chunk : str) : list str := split chunk.

(** [min(overlap, len(prev))], as a number of words. *)
Definition seed_size (overlap : Z) (prev : list str) : nat :=
  Z.to_nat (Z.min overlap (len prev)).

(** The trailing [n] elements of a list. *)
Definition lastn {A} (n : nat) (l : list A) : list A :=
  skipn (List.length l - n) l.

(** The words of a chunk sequence with the seeded words of each chunk
    after the first left out. *)
Fixpoint deoverlap_after (overlap : Z) (prev : list str)
         (rest : list (list str)) : list str :=
  match rest with
  | [] => []
  | c :: cs => skipn (seed_size overlap prev) c ++ deoverlap_after overlap c cs
  end.

Definition deoverlap (overlap : Z) (chunk_words : list (list str))
  : list str :=
  match chunk_words with
  | [] => []
  | c :: cs => c ++ deoverlap_after overlap c cs
  end.

(** ** The loop on word lists

    [chunk_text] stores each closed chunk joined into a string.  The
    same loop keeping the closed chunks as word lists is easier to
    reason about; [erase] maps its state to the state of the code. *)

Record wstate := {
  closed : list (list str);
  cur : list str;
  cur_length : Z
}.

Definition wstep (chunk_size overlap : Z) (st : wstate) (word : str)
  : wstate :=
  if (cur_length st + word_cost word >? chunk_size) && truthy (cur st)
  then
    let c := overlap_words overlap (cur st) ++ [word] in
    {| closed := closed st ++ [cur st];
       cur := c;
       cur_length := sum_cost c |}
  else
    {| closed := closed st;
       cur := cur st ++ [word];
       cur_length := cur_length st + word_cost word |}.

Definition winit : wstate :=
  {| closed := []; cur := []; cur_length := 0 |}.

Definition erase (st : wstate) : loop_state :=
  {| chunks := List.map (join (lit " ")) (closed st);
     current_chunk := cur st;
     current_length := cur_length st |}.

Definition run (chunk_size overlap : Z) (words : list str) : wstate :=
  fold_left (wstep chunk_size overlap) words winit.

(** Closed chunks followed by the open one. *)
Definition full (st : wstate) : list (list str) := closed st ++ [cur st].

Definition chunk_words (chunk_size overlap : Z) (words : list str)
  : list (list str) :=
  match words with
  | [] => []
  | _ => full (run chunk_size overlap words)
  end.

(** [b] starts with the seed taken from [a]. *)
Definition seeded (ov : Z) (a b : list str) : Prop :=
  exists rest, b = overlap_words ov a ++ rest.

End ChunkModel.

(** ** Shapes of chunks *)

Module ChunkShape.
Import Chunking.

(** A chunk within the target cost, or else a seed and one more word. *)
Definition within_target (cs ov : Z) (c : list str) : Prop :=
  sum_cost c <= cs \/ (List.length c <= Z.to_nat ov + 1)%nat.

(** [c] is a run of consecutive elements of [words]. *)
Definition run_of (c words : list str) : Prop :=
  exists before after, words = before ++ c ++ after.

(** The number of words a new chunk is started with when [prev] is
    closed: the length of [current_chunk[-overlap:]], or of the whole of
    [current_chunk] when it has no more than [overlap] words.  It is
    [min(overlap, len(prev))] for a positive overlap and [len(prev)] at
    an overlap of zero. *)
Definition seed_taken (overlap : Z) (prev : list str) : nat :=
  List.length (overlap_words overlap prev).

(** The words of a chunk sequence, in order and with their repetitions,
    each chunk after the first without the [seed_taken] words it was
    started with: the words that were appended to a chunk by
    [current_chunk.append(word)] or as the last element of
    [overlap_words + [word]]. *)
Fixpoint appended_after (overlap : Z) (prev : list str)
         (rest : list (list str)) : list str :=
  match rest with
  | [] => []
  | c :: cs =>
      skipn (seed_taken overlap prev) c ++ appended_after overlap c cs
  end.

Definition appended_words (overlap : Z) (chunk_words : list (list str))
  : list str :=
  match chunk_words with
  | [] => []
  | c :: cs => c ++ appended_after overlap c cs
  end.

End ChunkShape.

(** ** Concrete environments, used to run the model *)

Module Examples.

(** Numbers with four decimal places, counted in ten-thousandths, in
    place of floats: subtraction is exact and rounding to four or more
    places changes nothing. *)
Definition fixed4 : Type := Z.

Definition fixed4_of_int (i : Z) : fixed4 := i * 10000.

Definition fixed4_round (x : fixed4) (ndigits : Z) : fixed4 :=
  if 4 <=? ndigits then x
  else
    let m := 10 ^ (4 - ndigits) in
    let q := x / m in
    let r := x mod m in
    if 2 * r <? m then q * m
    else if m <? 2 * r then (q + 1) * m
    else if Z.even q then q * m else (q + 1) * m.

(** Lower case of the ASCII letters. *)
Definition ascii_lower (s : str) : str :=
  List.map (fun c => if ((65 <=? c) && (c <=? 90))%N then (c + 32)%N else c) s.

Definition example_settings : Settings :=
  {| OPENROUTER_API_KEY := lit "key";
     LLM_MODEL := lit "openai/gpt-4o-mini";
     STORAGE_PATH := lit "./documents";
     CHUNK_SIZE := 500;
     CHUNK_OVERLAP := 50;
     DEFAULT_TOP_K := 5;
     MAX_TOP_K := 10 |}.

Definition ready_service : VectorDBService :=
  {| client := Some Handle; collection := Some Handle |}.

(** The service object when the vector store library is not installed. *)
Definition uninitialized_service : VectorDBService :=
  {| client := None; collection := None |}.

(** An environment in which every outside call succeeds, except as the
    three parameters say: the service object, the answer of
    [collection.add], and the answer of [collection.query]. *)
Definition example_env (service : option VectorDBService)
           (add_answer : option exn) (query_answer : QueryResult fixed4)
  : Env fixed4 :=
  {| float_of_int := fixed4_of_int;
     fsub := Z.sub;
     fround := fixed4_round;
     settings := example_settings;
     vector_db_service := service;
     PDF_AVAILABLE := true;
     DOCX_AVAILABLE := true;
     str_lower := ascii_lower;
     os_path_join := fun a b => a ++ lit "/" ++ b;
     decode_utf8 := fun b => inr (List.map Byte.to_N b);
     pdf_page_texts := fun _ => inr [];
     docx_paragraph_texts := fun _ => inr [];
     open_write := fun _ _ _ => None;
     post_embeddings := fun _ input =>
       inr {| emb_status_code := 200;
              emb_text := [];
              emb_data := inr (match input with
                               | inl _ => [[1; 2; 3]]
                               | inr texts => List.map (fun _ => [1; 2; 3]) texts
                               end) |};
     post_chat := fun _ _ _ =>
       inr {| chat_status_code := 200;
              chat_text := lit "{}";
              chat_error_message := inr None;
              chat_content := inr (lit "An answer.") |};
     collection_add := fun _ _ _ _ _ => add_answer;
     collection_query := fun _ _ _ => inr query_answer;
     collection_get := fun _ ids =>
       inr {| gr_ids := Val ids;
              gr_documents := Val (List.map (fun _ => lit "text") ids) |};
     collection_get_where := fun _ _ =>
       inr {| gr_ids := Val []; gr_documents := Val [] |};
     collection_delete := fun _ _ => None;
     session_commit := fun _ _ => None |}.

(** A store with nothing in it answers a query with one empty list per
    key. *)
Definition no_chunks : QueryResult fixed4 :=
  {| qr_ids := Val [[]];
     qr_documents := Val [[]];
     qr_metadatas := Val [[]];
     qr_distances := Val [[]] |}.

(** Two chunks of two documents, at distances 0.1234 and 0.5. *)
Definition two_chunks : QueryResult fixed4 :=
  {| qr_ids := Val [[lit "a_chunk_0"; lit "b_chunk_3"]];
     qr_documents := Val [[lit "alpha"; lit "beta"]];
     qr_metadatas := Val [[ [(lit "document_id", MStr (lit "a"))];
                            [(lit "document_id", MStr (lit "b"))] ]];
     qr_distances := Val [[1234; 5000]] |}.

Definition empty_world : World fixed4 :=
  {| files := []; rows := []; calls := [] |}.

(** The bytes of the text [hello world]. *)
Definition hello_bytes : bytes :=
  [Byte.x68; Byte.x65; Byte.x6c; Byte.x6c; Byte.x6f; Byte.x20;
   Byte.x77; Byte.x6f; Byte.x72; Byte.x6c; Byte.x64].

Definition store_error : exn :=
  LibraryError (lit "InvalidDimensionException")
               (lit "Embedding dimension 3 does not match collection dimensionality 1536").

(** The environments of the examples. *)
Definition env_ready : Env fixed4 :=
  example_env (Some ready_service) None two_chunks.

Definition env_empty_index : Env fixed4 :=
  example_env (Some ready_service) None no_chunks.

Definition env_add_fails : Env fixed4 :=
  example_env (Some ready_service) (Some store_error) no_chunks.

Definition env_no_service : Env fixed4 :=
  example_env None None no_chunks.

Definition env_uninitialized : Env fixed4 :=
  example_env (Some uninitialized_service) None no_chunks.

Definition sample_request : QueryRequest :=
  {| question := lit "what?"; top_k := 1000 |}.

(** Uploading [hello world] as [notes.txt], [uuid4] having drawn [d]. *)
Definition ingest_hello (env : Env fixed4)
  : (site * exn + Document) * World fixed4 :=
  create_document env (lit "d") (lit "notes.txt") hello_bytes
                  (lit "text/plain") empty_world.

Definition hello_document : Document :=
  {| document_id := lit "d";
     original_filename := lit "notes.txt";
     file_path := lit "./documents/d.txt";
     file_type := lit "txt";
     extracted_text := lit "hello world";
     chunk_count := 1 |}.

(** Four words of costs 1, 1, 2 and 0. *)
Definition sample_text : str := lit "aaaa bbbb  cccccccc dd".

End Examples.

(** ** Further environments and requests *)

Module MoreExamples.
Import Examples.

(** [env_ready] with its settings, the pages of every PDF, the answer of
    [collection.get(where=...)] and the distances of every query result
    replaced. *)
Definition varied_env (s : Settings) (pages : list str)
           (found : entry (list str))
           (distances : entry (list (list fixed4))) : Env fixed4 :=
  {| float_of_int := float_of_int env_ready;
     fsub := fsub env_ready;
     fround := fround env_ready;
     settings := s;
     vector_db_service := vector_db_service env_ready;
     PDF_AVAILABLE := PDF_AVAILABLE env_ready;
     DOCX_AVAILABLE := DOCX_AVAILABLE env_ready;
     str_lower := str_lower env_ready;
     os_path_join := os_path_join env_ready;
     decode_utf8 := decode_utf8 env_ready;
     pdf_page_texts := fun _ => inr pages;
     docx_paragraph_texts := docx_paragraph_texts env_ready;
     open_write := open_write env_ready;
     post_embeddings := post_embeddings env_ready;
     post_chat := post_chat env_ready;
     collection_add := collection_add env_ready;
     collection_query := fun _ _ _ =>
       inr {| qr_ids := qr_ids two_chunks;
              qr_documents := qr_documents two_chunks;
              qr_metadatas := qr_metadatas two_chunks;
              qr_distances := distances |};
     collection_get := collection_get env_ready;
     collection_get_where := fun _ _ =>
       inr {| gr_ids := found; gr_documents := Val [] |};
     collection_delete := collection_delete env_ready;
     session_commit := session_commit env_ready |}.

Definition settings_without_key : Settings :=
  {| OPENROUTER_API_KEY := [];
     LLM_MODEL := LLM_MODEL example_settings;
     STORAGE_PATH := STORAGE_PATH example_settings;
     CHUNK_SIZE := CHUNK_SIZE example_settings;
     CHUNK_OVERLAP := CHUNK_OVERLAP example_settings;
     DEFAULT_TOP_K := DEFAULT_TOP_K example_settings;
     MAX_TOP_K := MAX_TOP_K example_settings |}.

Definition env_without_key : Env fixed4 :=
  varied_env settings_without_key [] (Val []) (qr_distances two_chunks).

(** A store whose query results carry no [distances] key. *)
Definition env_no_distances : Env fixed4 :=
  varied_env example_settings [] (Val []) Missing.

(** A PDF of two pages, and a store holding one chunk of the document. *)
Definition env_two_pages : Env fixed4 :=
  varied_env example_settings [lit " page one "; lit "two "]
             (Val [lit "d_chunk_0"]) (qr_distances two_chunks).

Definition upload_context : UploadContext :=
  {| MAX_FILE_SIZE := 10485760;
     size_limit_detail := lit "File size exceeds 10.0MB limit";
     derives_from_value_error :=
       fun cls => str_eqb cls (lit "UnicodeDecodeError") |}.

Definition hello_upload : UploadFile :=
  {| content_type := Some (lit "text/plain");
     upload_filename := Some (lit "notes.txt");
     upload_bytes := hello_bytes |}.


Definition untyped_upload : UploadFile :=
  {| content_type := None;
     upload_filename := Some (lit "notes.txt");
     upload_bytes := hello_bytes |}.

End MoreExamples.

(** * Properties of the string operations *)

Module PyStrFacts.

Lemma is_word_snoc (w : str) (c : char) :
  (w = [] \/ is_word w) -> is_space c = false -> is_word (w ++ [c]).
Proof.
  intros Hw Hc. split.
  - destruct w; discriminate.
  - rewrite forallb_app. cbn. rewrite Hc. cbn.
    destruct Hw as [-> | [_ ->]]; reflexivity.
Qed.

Lemma split_from_words (s : str) :
  forall word, (word = [] \/ is_word word) ->
               Forall is_word (split_from word s).
Proof.
  induction s as [| c rest IH]; intros word Hw; cbn.
  - destruct word; [constructor |].
    destruct Hw as [Hw | Hw]; [discriminate |].
    constructor; [exact Hw | constructor].
  - destruct (is_space c) eqn:Hc.
    + destruct word.
      * apply IH. now left.
      * destruct Hw as [Hw | Hw]; [discriminate |].
        constructor; [exact Hw | apply IH; now left].
    + apply IH. right. now apply is_word_snoc.
Qed.

Lemma split_words (s : str) : Forall is_word (split s).
Proof. apply split_from_words. now left. Qed.

(** Reading a run of non-space characters moves it into the word being
    read. *)
Lemma split_from_run (w : str) :
  forallb (fun c => negb (is_space c)) w = true ->
  forall word rest,
    split_from word (w ++ rest) = split_from (word ++ w) rest.
Proof.
  induction w as [| c w IH]; intros Hw word rest; cbn.
  - now rewrite app_nil_r.
  - cbn in Hw. apply andb_prop in Hw as [Hc Hw].
    apply negb_true_iff in Hc. rewrite Hc.
    rewrite IH by exact Hw. now rewrite <- app_assoc.
Qed.

Lemma split_join (ws : list str) :
  Forall is_word ws -> split (join (lit " ") ws) = ws.
Proof.
  unfold split. induction 1 as [| w ws [Hne Hw] Hws IH]; [reflexivity |].
  destruct ws as [| w' ws'].
  - cbn [join]. rewrite <- (app_nil_r w) at 1.
    rewrite split_from_run by exact Hw. cbn.
    destruct w; [contradiction | reflexivity].
  - change (join (lit " ") (w :: w' :: ws'))
      with (w ++ lit " " ++ join (lit " ") (w' :: ws')).
    rewrite split_from_run by exact Hw. cbn [app lit].
    change (split_from w (32%N :: join (lit " ") (w' :: ws')) = w :: w' :: ws').
    cbn [split_from]. change (is_space 32%N) with true. cbn iota.
    rewrite IH. destruct w; [contradiction | reflexivity].
Qed.

Lemma lstrip_nil_iff (s : str) :
  lstrip s = [] <-> forallb is_space s = true.
Proof.
  induction s as [| c s IH]; cbn; [tauto |].
  destruct (is_space c); cbn; [exact IH | split; discriminate].
Qed.

Lemma all_space_iff (s : str) :
  forallb is_space s = true <-> ~ has_non_space s.
Proof.
  rewrite forallb_forall. split.
  - intros H (c & Hin & Hc). rewrite (H c Hin) in Hc. discriminate.
  - intros H c Hin. destruct (is_space c) eqn:Hc; [reflexivity |].
    exfalso. apply H. now exists c.
Qed.

Lemma lstrip_keeps (s : str) : has_non_space s -> has_non_space (lstrip s).
Proof.
  induction s as [| c s IH]; cbn; [trivial |].
  intros (d & Hin & Hd). destruct (is_space c) eqn:Hc.
  - apply IH. destruct Hin as [-> | Hin]; [congruence | now exists d].
  - now exists d.
Qed.

Lemma not_all_space (s : str) :
  forallb is_space s = false -> has_non_space s.
Proof.
  induction s as [| c s IH]; cbn; [discriminate |].
  destruct (is_space c) eqn:Hc; cbn.
  - intros H. destruct (IH H) as (d & Hin & Hd).
    exists d. split; [now right | exact Hd].
  - intros _. exists c. split; [now left | exact Hc].
Qed.

Lemma strip_nonempty_iff (s : str) : strip s <> [] <-> has_non_space s.
Proof.
  unfold strip, rstrip. split.
  - intros H. destruct (forallb is_space s) eqn:Hs.
    + apply lstrip_nil_iff in Hs. rewrite Hs in H. now cbn in H.
    + now apply not_all_space.
  - intros H Hnil. apply lstrip_keeps in H.
    destruct H as (c & Hin & Hc).
    apply (f_equal (@rev char)) in Hnil.
    rewrite rev_involutive in Hnil. cbn in Hnil.
    apply lstrip_nil_iff in Hnil. rewrite forallb_forall in Hnil.
    rewrite (Hnil c) in Hc; [discriminate | now apply in_rev in Hin].
Qed.

Lemma split_from_nonempty (s : str) :
  forall word, word <> [] \/ has_non_space s -> split_from word s <> [].
Proof.
  induction s as [| c s IH]; intros word H; cbn.
  - destruct H as [H | (c & Hin & _)]; [| destruct Hin].
    destruct word; [contradiction | intros Hn; discriminate Hn].
  - destruct (is_space c) eqn:Hc.
    + destruct word; [| discriminate].
      apply IH. right. destruct H as [H | (d & [-> | Hin] & Hd)];
        [contradiction | congruence | now exists d].
    + apply IH. left. destruct word; discriminate.
Qed.

Lemma split_nonempty (s : str) : has_non_space s -> split s <> [].
Proof. intros H. apply split_from_nonempty. now right. Qed.

Lemma split_from_blank (s : str) :
  forallb is_space s = true -> split_from [] s = [].
Proof.
  induction s as [| c s IH]; cbn; [reflexivity |].
  destruct (is_space c); cbn; [exact IH | discriminate].
Qed.

Lemma split_nil_iff (s : str) : split s = [] <-> ~ has_non_space s.
Proof.
  split.
  - intros H Hc. now apply split_nonempty in Hc.
  - intros H. apply split_from_blank. now apply all_space_iff.
Qed.

End PyStrFacts.
Import PyStrFacts.

(** * Properties of the chunker *)

Section ChainFacts.

Variable A : Type.
Variable R : A -> A -> Prop.

Lemma last_cons (x d : A) (t : list A) : last (x :: t) d = last t x.
Proof.
  revert x d. induction t as [| y t IH]; intros x d; [reflexivity |].
  change (last (x :: y :: t) d) with (last (y :: t) d).
  now rewrite (IH y d), (IH y x).
Qed.

Lemma chain_from_snoc (l : list A) :
  forall p x, chain_from R p (l ++ [x]) <-> chain_from R p l /\ R (last l p) x.
Proof.
  induction l as [| y l IH]; intros p x.
  - cbn. tauto.
  - change ((y :: l) ++ [x]) with (y :: (l ++ [x])).
    cbn [chain_from]. rewrite IH, last_cons. tauto.
Qed.

Lemma chain_snoc (l : list A) (x d : A) :
  l <> [] -> (chain R (l ++ [x]) <-> chain R l /\ R (last l d) x).
Proof.
  destruct l as [| y l]; [contradiction | intros _].
  cbn [app chain]. rewrite chain_from_snoc, last_cons. tauto.
Qed.

Lemma chain_from_nth (l : list A) :
  forall p, chain_from R p l ->
  forall i a b, nth_error (p :: l) i = Some a ->
                nth_error (p :: l) (S i) = Some b -> R a b.
Proof.
  induction l as [| y l IH]; intros p Hc i a b Ha Hb.
  - destruct i; cbn in Hb; [discriminate | destruct i; discriminate].
  - destruct Hc as [Hpy Hc]. destruct i as [| i].
    + cbn in Ha, Hb. congruence.
    + apply (IH y Hc i); assumption.
Qed.

Lemma chain_nth (l : list A) (i : nat) (a b : A) :
  chain R l -> nth_error l i = Some a -> nth_error l (S i) = Some b -> R a b.
Proof.
  destruct l as [| p l]; [destruct i; discriminate |].
  intros Hc. now apply chain_from_nth.
Qed.

End ChainFacts.

Module ChunkingFacts.
Import Chunking ChunkModel.

Lemma step_erase (cs ov : Z) (st : wstate) (w : str) :
  step cs ov (erase st) w = erase (wstep cs ov st w).
Proof.
  unfold step, wstep, erase. cbn.
  destruct ((cur_length st + word_cost w >? cs) && truthy (cur st)); cbn.
  - now rewrite map_app.
  - reflexivity.
Qed.

Lemma fold_erase (cs ov : Z) (words : list str) :
  forall st, fold_left (step cs ov) words (erase st)
             = erase (fold_left (wstep cs ov) words st).
Proof.
  induction words as [| w words IH]; intros st; [reflexivity |].
  cbn [fold_left]. now rewrite step_erase, IH.
Qed.

Lemma run_snoc (cs ov : Z) (words : list str) (w : str) :
  run cs ov (words ++ [w]) = wstep cs ov (run cs ov words) w.
Proof. unfold run. now rewrite fold_left_app. Qed.

Lemma wstep_cur_nonempty (cs ov : Z) (st : wstate) (w : str) :
  cur (wstep cs ov st w) <> [].
Proof.
  unfold wstep.
  destruct ((cur_length st + word_cost w >? cs) && truthy (cur st)); cbn;
    intros H; apply app_eq_nil in H as [_ H]; discriminate.
Qed.

Lemma run_cur_nonempty (cs ov : Z) (words : list str) :
  words <> [] -> cur (run cs ov words) <> [].
Proof.
  destruct words as [| w words _] using rev_ind; [contradiction |].
  intros _. rewrite run_snoc. apply wstep_cur_nonempty.
Qed.

(** The code's result is the word-list result, joined. *)
Lemma chunk_text_words (settings : Settings) (text : str)
      (chunk_size overlap : option Z) :
  chunk_text settings text chunk_size overlap
  = List.map (join (lit " "))
      (chunk_words (or_default chunk_size (CHUNK_SIZE settings))
                   (or_default overlap (CHUNK_OVERLAP settings))
                   (split text)).
Proof.
  unfold chunk_text, chunk_words.
  set (cs := or_default chunk_size _). set (ov := or_default overlap _).
  change init with (erase winit). rewrite fold_erase. fold (run cs ov (split text)).
  destruct (split text) as [| w ws] eqn:Hw; [reflexivity |].
  rewrite <- Hw. unfold finish, full. cbn [erase current_chunk chunks].
  assert (Hne : cur (run cs ov (split text)) <> [])
    by (apply run_cur_nonempty; rewrite Hw; discriminate).
  destruct (cur (run cs ov (split text))); [contradiction |].
  cbn [truthy]. now rewrite map_app.
Qed.

(** ** What one iteration does to the chunk sequence *)

Lemma full_wstep (cs ov : Z) (st : wstate) (w : str) :
  full (wstep cs ov st w) = full st ++ [overlap_words ov (cur st) ++ [w]]
  \/ full (wstep cs ov st w) = closed st ++ [cur st ++ [w]].
Proof.
  unfold wstep, full.
  destruct ((cur_length st + word_cost w >? cs) && truthy (cur st)); cbn;
    [left | right]; reflexivity.
Qed.

(** ** The seeded words *)

Lemma slice_from_incl {A} (start : Z) (l : list A) :
  incl (slice_from start l) l.
Proof.
  unfold slice_from. intros x Hx.
  rewrite <- (firstn_skipn (Z.to_nat (if start <? 0
                                      then Z.max (start + len l) 0
                                      else Z.min start (len l))) l).
  apply in_or_app. now right.
Qed.

Lemma overlap_words_incl (ov : Z) (a : list str) :
  incl (overlap_words ov a) a.
Proof.
  unfold overlap_words. destruct (len a >? ov).
  - apply slice_from_incl.
  - apply incl_refl.
Qed.

(** For a positive overlap the seed is the trailing
    [min(overlap, len(a))] words. *)
Lemma overlap_words_lastn (ov : Z) (a : list str) :
  1 <= ov -> overlap_words ov a = lastn (seed_size ov a) a.
Proof.
  intros Hov. unfold overlap_words, lastn, seed_size, slice_from, len.
  destruct (Z.of_nat (List.length a) >? ov) eqn:Hlt.
  - apply Z.gtb_lt in Hlt.
    destruct (- ov <? 0) eqn:Hneg; [| apply Z.ltb_ge in Hneg; lia].
    f_equal. lia.
  - assert (Hle : Z.of_nat (List.length a) <= ov).
    { destruct (Z.gtb_spec (Z.of_nat (List.length a)) ov); [discriminate | lia]. }
    replace (List.length a - Z.to_nat (Z.min ov (Z.of_nat (List.length a))))%nat
      with 0%nat by lia.
    reflexivity.
Qed.

Lemma overlap_words_length (ov : Z) (a : list str) :
  1 <= ov -> List.length (overlap_words ov a) = seed_size ov a.
Proof.
  intros Hov. rewrite overlap_words_lastn by exact Hov.
  unfold lastn. rewrite length_skipn. unfold seed_size, len. lia.
Qed.

(** Without overlap, or with a negative one, no word is compared. *)
Lemma seed_size_nonpositive (ov : Z) (a : list str) :
  ov <= 0 -> seed_size ov a = 0%nat.
Proof. unfold seed_size, len. lia. Qed.

Lemma seeded_extend (ov : Z) (a b : list str) (w : str) :
  seeded ov a b -> seeded ov a (b ++ [w]).
Proof.
  intros [rest ->]. exists (rest ++ [w]). now rewrite app_assoc.
Qed.

Lemma seeded_prefix (ov : Z) (a b : list str) :
  seeded ov a b ->
  firstn (seed_size ov a) b = lastn (seed_size ov a) a.
Proof.
  intros [rest ->]. destruct (Z_le_gt_dec ov 0) as [Hle | Hgt].
  - rewrite seed_size_nonpositive by exact Hle.
    unfold lastn. rewrite Nat.sub_0_r, skipn_all. reflexivity.
  - rewrite <- (overlap_words_length a) by lia.
    rewrite firstn_app, Nat.sub_diag, firstn_all. cbn.
    rewrite app_nil_r, overlap_words_length by lia.
    apply overlap_words_lastn. lia.
Qed.

(** ** Invariants of the loop *)

Lemma run_chain (cs ov : Z) (words : list str) :
  chain (seeded ov) (full (run cs ov words)).
Proof.
  induction words as [| w words IH] using rev_ind; [exact I |].
  rewrite run_snoc. set (st := run cs ov words) in *.
  destruct (full_wstep cs ov st w) as [-> | ->].
  - apply (chain_snoc (seeded ov) _ []).
    + unfold full. intros H. apply app_eq_nil in H as [_ H]. discriminate.
    + split; [exact IH |]. unfold full. rewrite last_last.
      now exists [w].
  - unfold full in IH. destruct (closed st) as [| c cl] eqn:Hc; [exact I |].
    rewrite <- Hc in *.
    assert (Hne : closed st <> []) by (rewrite Hc; discriminate).
    apply (chain_snoc (seeded ov) _ [] Hne).
    apply (chain_snoc (seeded ov) _ [] Hne) in IH as [IH1 IH2].
    split; [exact IH1 | now apply seeded_extend].
Qed.

(** Every word in a chunk is a word of the input. *)
Lemma run_sound (cs ov : Z) (words : list str) :
  forall c, In c (full (run cs ov words)) -> incl c words.
Proof.
  induction words as [| w words IH] using rev_ind.
  - intros c [<- | []]. apply incl_refl.
  - intros c. rewrite run_snoc. set (st := run cs ov words) in *.
    assert (Hcur : incl (cur st) words)
      by (apply IH; unfold full; apply in_or_app; right; now left).
    destruct (full_wstep cs ov st w) as [-> | ->]; intros Hin;
      apply in_app_or in Hin as [Hin | [<- | []]].
    + apply incl_appl. now apply IH.
    + apply incl_app; [| apply incl_appr, incl_refl].
      apply incl_appl. eapply incl_tran; [apply overlap_words_incl | exact Hcur].
    + apply incl_appl. apply IH. unfold full. apply in_or_app. now left.
    + apply incl_app; [now apply incl_appl | apply incl_appr, incl_refl].
Qed.

(** Every word of the input is in a chunk. *)
Lemma run_complete (cs ov : Z) (words : list str) :
  forall w, In w words ->
            exists c, In c (full (run cs ov words)) /\ In w c.
Proof.
  induction words as [| x words IH] using rev_ind; [intros w [] |].
  intros w Hw. rewrite run_snoc. set (st := run cs ov words) in *.
  apply in_app_or in Hw as [Hw | [<- | []]].
  - destruct (IH w Hw) as (c & Hc & Hwc).
    destruct (full_wstep cs ov st x) as [-> | ->].
    + exists c. split; [apply in_or_app; now left | exact Hwc].
    + unfold full in Hc. apply in_app_or in Hc as [Hc | [<- | []]].
      * exists c. split; [apply in_or_app; now left | exact Hwc].
      * exists (cur st ++ [x]).
        split; [apply in_or_app; right; now left | apply in_or_app; now left].
  - destruct (full_wstep cs ov st x) as [-> | ->];
      eexists; (split; [apply in_or_app; right; now left |]);
      apply in_or_app; right; now left.
Qed.

(** ** Removing the overlap *)

Lemma deoverlap_after_snoc (ov : Z) (l : list (list str)) :
  forall p x,
    deoverlap_after ov p (l ++ [x])
    = deoverlap_after ov p l ++ skipn (seed_size ov (last l p)) x.
Proof.
  induction l as [| y l IH]; intros p x.
  - cbn. now rewrite app_nil_r.
  - change ((y :: l) ++ [x]) with (y :: (l ++ [x])).
    cbn [deoverlap_after]. now rewrite IH, last_cons, app_assoc.
Qed.

Lemma deoverlap_snoc (ov : Z) (l : list (list str)) (x : list str) :
  l <> [] ->
  deoverlap ov (l ++ [x])
  = deoverlap ov l ++ skipn (seed_size ov (last l [])) x.
Proof.
  destruct l as [| y l]; [contradiction | intros _].
  cbn [app deoverlap]. now rewrite deoverlap_after_snoc, last_cons, app_assoc.
Qed.

Lemma skipn_seed (ov : Z) (a b : list str) :
  1 <= ov -> seeded ov a b ->
  forall w, skipn (seed_size ov a) (b ++ [w])
            = skipn (seed_size ov a) b ++ [w].
Proof.
  intros Hov [rest ->] w. rewrite <- (overlap_words_length a) by exact Hov.
  rewrite <- app_assoc, !skipn_app, !skipn_all, !Nat.sub_diag. reflexivity.
Qed.

(** With a positive overlap, the chunk sequence without its seeded
    words is the word sequence read so far. *)
Lemma run_deoverlap (cs ov : Z) (words : list str) :
  1 <= ov -> deoverlap ov (full (run cs ov words)) = words.
Proof.
  intros Hov. induction words as [| w words IH] using rev_ind;
    [reflexivity |].
  pose proof (run_chain cs ov words) as Hch.
  rewrite run_snoc. set (st := run cs ov words) in *.
  destruct (full_wstep cs ov st w) as [-> | ->].
  - rewrite deoverlap_snoc
      by (unfold full; intros H; apply app_eq_nil in H as [_ H]; discriminate).
    rewrite IH. unfold full. rewrite last_last.
    rewrite <- (overlap_words_length (cur st)) by exact Hov.
    rewrite skipn_app, skipn_all, Nat.sub_diag. reflexivity.
  - unfold full in IH, Hch. destruct (closed st) as [| c cl] eqn:Hc.
    + cbn in IH |- *. rewrite app_nil_r in IH |- *. now rewrite IH.
    + rewrite <- Hc in *.
      assert (Hne : closed st <> []) by (rewrite Hc; discriminate).
      rewrite deoverlap_snoc in IH |- * by exact Hne.
      apply (chain_snoc (seeded ov) _ [] Hne) in Hch as [_ Hs].
      rewrite skipn_seed by assumption.
      now rewrite app_assoc, IH.
Qed.

(** ** From word lists back to the strings the code returns *)

Lemma chunk_words_sound (cs ov : Z) (words : list str) :
  forall c, In c (chunk_words cs ov words) -> incl c words.
Proof.
  unfold chunk_words. destruct words as [| w ws]; [intros c [] |].
  apply run_sound.
Qed.

Lemma chunk_words_are_words (cs ov : Z) (text : str) :
  Forall (Forall is_word) (chunk_words cs ov (split text)).
Proof.
  apply Forall_forall. intros c Hc. apply Forall_forall. intros w Hw.
  pose proof (split_words text) as Hs. rewrite Forall_forall in Hs.
  apply Hs. exact (chunk_words_sound _ _ _ c Hc w Hw).
Qed.

Lemma map_split_join (l : list (list str)) :
  Forall (Forall is_word) l ->
  List.map words_of (List.map (join (lit " ")) l) = l.
Proof.
  induction 1 as [| c l Hc Hl IH]; [reflexivity |].
  cbn [List.map]. unfold words_of at 1. now rewrite split_join, IH.
Qed.

(** The words of the chunks [chunk_text] returns. *)
Theorem chunk_text_split (settings : Settings) (text : str)
        (chunk_size overlap : option Z) :
  List.map words_of (chunk_text settings text chunk_size overlap)
  = chunk_words (or_default chunk_size (CHUNK_SIZE settings))
                (or_default overlap (CHUNK_OVERLAP settings))
                (split text).
Proof.
  rewrite chunk_text_words. apply map_split_join, chunk_words_are_words.
Qed.

Lemma chunk_words_chain (cs ov : Z) (words : list str) :
  chain (seeded ov) (chunk_words cs ov words).
Proof.
  unfold chunk_words. destruct words as [| w ws]; [exact I |].
  apply run_chain.
Qed.

Lemma chunk_words_deoverlap (cs ov : Z) (words : list str) :
  1 <= ov -> deoverlap ov (chunk_words cs ov words) = words.
Proof.
  intros Hov. unfold chunk_words. destruct words as [| w ws]; [reflexivity |].
  now apply run_deoverlap.
Qed.

Lemma chunk_words_complete (cs ov : Z) (words : list str) :
  forall w, In w words -> exists c, In c (chunk_words cs ov words) /\ In w c.
Proof.
  unfold chunk_words. destruct words as [| x ws]; [intros w [] |].
  apply run_complete.
Qed.

End ChunkingFacts.

(** ** Every word is appended exactly once *)

Module AppendedFacts.
Import Chunking ChunkModel ChunkShape ChunkingFacts.

Lemma appended_after_snoc (ov : Z) (l : list (list str)) :
  forall p x,
    appended_after ov p (l ++ [x])
    = appended_after ov p l ++ skipn (seed_taken ov (last l p)) x.
Proof.
  induction l as [| y l IH]; intros p x.
  - cbn. now rewrite app_nil_r.
  - change ((y :: l) ++ [x]) with (y :: (l ++ [x])).
    cbn [appended_after]. now rewrite IH, last_cons, app_assoc.
Qed.

Lemma appended_words_snoc (ov : Z) (l : list (list str)) (x : list str) :
  l <> [] ->
  appended_words ov (l ++ [x])
  = appended_words ov l ++ skipn (seed_taken ov (last l [])) x.
Proof.
  destruct l as [| y l]; [contradiction | intros _].
  cbn [app appended_words].
  now rewrite appended_after_snoc, last_cons, app_assoc.
Qed.

Lemma skipn_seed_taken (ov : Z) (a rest : list str) :
  skipn (seed_taken ov a) (overlap_words ov a ++ rest) = rest.
Proof.
  unfold seed_taken. now rewrite skipn_app, skipn_all, Nat.sub_diag.
Qed.

(** Whatever the overlap, the chunk sequence without the words each
    chunk was started with is the word sequence read so far. *)
Lemma run_appended (cs ov : Z) (words : list str) :
  appended_words ov (full (run cs ov words)) = words.
Proof.
  induction words as [| w words IH] using rev_ind; [reflexivity |].
  pose proof (run_chain cs ov words) as Hch.
  rewrite run_snoc. set (st := run cs ov words) in *.
  destruct (full_wstep cs ov st w) as [-> | ->].
  - rewrite appended_words_snoc
      by (unfold full; intros H; apply app_eq_nil in H as [_ H]; discriminate).
    rewrite IH. unfold full. rewrite last_last.
    now rewrite skipn_seed_taken.
  - unfold full in IH, Hch. destruct (closed st) as [| c cl] eqn:Hc.
    + cbn in IH |- *. rewrite app_nil_r in IH |- *. now rewrite IH.
    + rewrite <- Hc in *.
      assert (Hne : closed st <> []) by (rewrite Hc; discriminate).
      rewrite appended_words_snoc in IH |- * by exact Hne.
      apply (chain_snoc (seeded ov) _ [] Hne) in Hch as [_ [rest Hs]].
      rewrite Hs in IH |- *. rewrite <- app_assoc.
      rewrite skipn_seed_taken in IH |- *.
      now rewrite app_assoc, IH.
Qed.

Lemma chunk_words_appended (cs ov : Z) (words : list str) :
  appended_words ov (chunk_words cs ov words) = words.
Proof.
  unfold chunk_words. destruct words as [| w ws]; [reflexivity |].
  apply run_appended.
Qed.

End AppendedFacts.

(** ** The chunker, on the strings it returns *)

Section ChunkerClaims.

Import Chunking ChunkModel ChunkShape ChunkingFacts AppendedFacts.

Variable settings : Settings.

(** C1.  In the sequence [chunk_text] returns, the leading words of each
    chunk after the first are the trailing [min(overlap, n)] words of the
    chunk before it, [n] being the number of words of that chunk.  (For
    an overlap of zero or less, no word is compared.) *)
Theorem consecutive_chunks_overlap
        (text : str) (chunk_size overlap : option Z)
        (i : nat) (chunk next : str) :
  nth_error (chunk_text settings text chunk_size overlap) i = Some chunk ->
  nth_error (chunk_text settings text chunk_size overlap) (S i)
  = Some next ->
  let k := seed_size (or_default overlap (CHUNK_OVERLAP settings))
                     (words_of chunk) in
  firstn k (words_of next) = lastn k (words_of chunk).
Proof.
  intros Hi Hn k. subst k.
  apply (map_nth_error words_of) in Hi, Hn.
  rewrite chunk_text_split in Hi, Hn.
  apply seeded_prefix.
  eapply chain_nth; [apply chunk_words_chain | exact Hi | exact Hn].
Qed.

(** X1. With an overlap of at least one word, the chunks without their
    seeded words give back the words of the text. *)
Theorem deoverlap_reconstructs_text
        (text : str) (chunk_size overlap : option Z) :
  1 <= or_default overlap (CHUNK_OVERLAP settings) ->
  deoverlap (or_default overlap (CHUNK_OVERLAP settings))
            (List.map words_of (chunk_text settings text chunk_size overlap))
  = split text.
Proof.
  intros Hov. rewrite chunk_text_split. now apply chunk_words_deoverlap.
Qed.

(** C7.  A text of one word is returned as one chunk equal to that
    word, whatever the cost of the word and the target size.  And no word
    of any text is dropped, whatever the target size and the overlap:
    the words of the returned chunks, each chunk after the first without
    the words it was started with from the chunk before it, are the words
    of the text, in the same order and with the same repetitions; in
    particular every word of the text is among the words of some
    returned chunk. *)
Theorem oversized_word_is_kept
        (text : str) (chunk_size overlap : option Z) (word : str) :
  split text = [word] ->
  chunk_text settings text chunk_size overlap = [word]
  /\ (forall (text' : str) (chunk_size' overlap' : option Z),
        appended_words
          (or_default overlap' (CHUNK_OVERLAP settings))
          (List.map words_of
                    (chunk_text settings text' chunk_size' overlap'))
        = split text'
        /\ forall w : str,
             In w (split text') ->
             exists chunk,
               In chunk (chunk_text settings text' chunk_size' overlap')
               /\ In w (words_of chunk)).
Proof.
  intros Hone. split.
  - unfold chunk_text. rewrite Hone. cbn [fold_left].
    unfold step, init. cbn [current_chunk truthy chunks current_length].
    rewrite andb_false_r. unfold finish.
    cbn [current_chunk app truthy chunks join]. reflexivity.
  - intros text' chunk_size' overlap'. split.
    + rewrite chunk_text_split. apply chunk_words_appended.
    + intros w Hw.
      set (cs := or_default chunk_size' (CHUNK_SIZE settings)).
      set (ov := or_default overlap' (CHUNK_OVERLAP settings)).
      destruct (chunk_words_complete cs ov (split text') w Hw)
        as (c & Hc & Hwc).
      exists (join (lit " ") c). split.
      * rewrite chunk_text_words. now apply in_map.
      * unfold words_of. rewrite split_join; [exact Hwc |].
        pose proof (chunk_words_are_words cs ov text') as Hall.
        rewrite Forall_forall in Hall. now apply Hall.
Qed.

(** X2. A text without a character that is not white space, the empty text
    among them, gives no chunk, and only such a text does. *)
Theorem no_chunk_iff_blank (text : str) (chunk_size overlap : option Z) :
  chunk_text settings text chunk_size overlap = [] <-> ~ has_non_space text.
Proof.
  rewrite <- split_nil_iff, chunk_text_words. unfold chunk_words.
  destruct (split text) as [| w ws]; [split; reflexivity |].
  split; [| discriminate].
  intros H. apply map_eq_nil in H. unfold full in H.
  apply app_eq_nil in H as [_ H]. discriminate.
Qed.

End ChunkerClaims.

(** C2.  The chunks of a text, each after the first without its leading
    [min(overlap, n)] words, should give back the words of the text.  At
    an overlap of zero the code does not: [current_chunk[-0:]] is the
    whole chunk, so each new chunk starts with all the words of the chunk
    before it and the words come out twice. *)
Theorem zero_overlap_repeats_the_chunk :
  let text := lit "aaaa bbbb" in
  let result :=
    Chunking.chunk_text Examples.example_settings text (Some 1) (Some 0) in
  result = [lit "aaaa"; lit "aaaa bbbb"]
  /\ ChunkModel.deoverlap 0 (List.map ChunkModel.words_of result)
     = [lit "aaaa"; lit "aaaa"; lit "bbbb"]
  /\ split text = [lit "aaaa"; lit "bbbb"]
  /\ ChunkModel.deoverlap 0 (List.map ChunkModel.words_of result)
     <> split text.
Proof.
  cbv zeta. repeat split; try reflexivity.
  vm_compute. discriminate.
Qed.

(** * Properties of the service *)

Section ServiceFacts.

Variable float : Type.
Variable env : Env float.

(** Unfolds the monad operations in a hypothesis. *)
Ltac unfold_monad H :=
  unfold bind, at_site, try_except, command, call, lift, raise, ret in H.

Ltac unfold_monad_goal :=
  unfold bind, at_site, try_except, command, call, lift, raise, ret.

(** Splits a hypothesis on the first test or match it contains. *)
Ltac split_run H :=
  match type of H with
  | context [match ?x with _ => _ end] =>
      lazymatch x with
      | context [match _ with _ => _ end] => fail
      | _ => destruct x eqn:?
      end
  end.

(** ** What each service call does to the world *)

Lemma truthy_true {A} (l : list A) : truthy l = true <-> l <> [].
Proof. destruct l; cbn; split; congruence. Qed.

Lemma embeddings_request_world (input : str + list str)
      (w w' : World float) (r : exn + list (list float)) :
  embeddings_request env input w = (r, w') ->
  files w' = files w /\ rows w' = rows w
  /\ (calls w' = calls w \/ calls w' = calls w ++ [CallEmbeddings input]).
Proof.
  unfold embeddings_request. intros H. unfold_monad H.
  repeat split_run H; inversion H; subst; cbn; auto.
Qed.

Lemma get_embedding_world (t : str) (w w' : World float)
      (r : exn + list float) :
  get_embedding env t w = (r, w') ->
  files w' = files w /\ rows w' = rows w
  /\ (calls w' = calls w \/ calls w' = calls w ++ [CallEmbeddings (inl t)]).
Proof.
  unfold get_embedding, bind. intros H.
  destruct (embeddings_request env (inl t) w) as [[e | data] w1] eqn:Hreq;
    apply embeddings_request_world in Hreq.
  - inversion H; subst. exact Hreq.
  - destruct data; unfold raise, ret in H; inversion H; subst; exact Hreq.
Qed.

Lemma generate_answer_world (q : str) (context_chunks : list str)
      (w w' : World float) (r : exn + str * str) :
  generate_answer env q context_chunks w = (r, w') ->
  files w' = files w /\ rows w' = rows w
  /\ (calls w' = calls w
      \/ calls w' = calls w
                    ++ [CallChat system_message (build_prompt q context_chunks)]).
Proof.
  unfold generate_answer. intros H. unfold_monad H.
  repeat split_run H; inversion H; subst; cbn; auto.
Qed.

(** The four operations of the service object: without a collection
    each raises and calls nothing; with one, each makes its call. *)
Lemma query_run (self : VectorDBService) (e : list float) (n : Z)
      (w : World float) :
  query env self e n w
  = match collection self with
    | None => (inl not_initialized, w)
    | Some _ => (collection_query env (calls w) e n,
                 log (CallCollectionQuery e n) w)
    end.
Proof. unfold query. destruct (collection self); reflexivity. Qed.

Lemma add_documents_run (self : VectorDBService) (doc_id : str)
      (ids : list str) (embeddings : list (list float)) (texts : list str)
      (metas : list metadata) (w : World float) :
  add_documents env self doc_id ids embeddings texts metas w
  = match collection self with
    | None => (inl not_initialized, w)
    | Some _ =>
        (match collection_add env (calls w) ids embeddings texts metas with
         | Some e => inl e
         | None => inr tt
         end,
         log (CallCollectionAdd ids embeddings texts metas) w)
    end.
Proof.
  unfold add_documents, command. destruct (collection self); [| reflexivity].
  destruct (collection_add env (calls w) ids embeddings texts metas);
    reflexivity.
Qed.

Lemma get_chunks_run (self : VectorDBService) (ids : list str)
      (w : World float) :
  get_chunks env self ids w
  = match collection self with
    | None => (inl not_initialized, w)
    | Some _ => (collection_get env (calls w) ids, log (CallCollectionGet ids) w)
    end.
Proof. unfold get_chunks. destruct (collection self); reflexivity. Qed.

(** ** The query route *)

Lemma no_ids_iff (results : QueryResult float) :
  no_ids results = true <-> returned_ids results = [].
Proof.
  unfold no_ids, returned_ids.
  destruct (qr_ids results) as [| | [| first rest]]; try tauto.
  destruct first; cbn; split; congruence.
Qed.

(** C4.  When the vector store answers the query with no chunk, the
    route returns the fixed answer "No relevant documents found in the
    database." with empty [chunks_used] and [document_ids], and the run
    sends no request to the LLM completion endpoint. *)
Theorem empty_result_short_circuits
        (service : VectorDBService) (query_data : QueryRequest)
        (w w1 w2 : World float) (embedding : list float)
        (results : QueryResult float) :
  vector_db_service env = Some service ->
  get_embedding env (question query_data) w = (inr embedding, w1) ->
  query env service embedding (clamp_top_k env (top_k query_data)) w1
  = (inr results, w2) ->
  returned_ids results = [] ->
  query_documents env query_data w = (inr (fallback_response env), w2)
  /\ answer (fallback_response env)
     = lit "No relevant documents found in the database."
  /\ chunks_used (fallback_response env) = []
  /\ document_ids (fallback_response env) = []
  /\ chat_calls (calls w2) = chat_calls (calls w).
Proof.
  intros Hsvc Hemb Hq Hnone. apply no_ids_iff in Hnone.
  repeat split.
  - unfold query_documents. rewrite Hsvc.
    unfold try_except, query_body, bind. rewrite Hemb, Hq, Hnone.
    reflexivity.
  - apply get_embedding_world in Hemb as (_ & _ & Hc1).
    rewrite query_run in Hq. unfold chat_calls.
    destruct (collection service); inversion Hq; subst; cbn [calls log].
    rewrite filter_app. cbn. rewrite app_nil_r.
    destruct Hc1 as [-> | ->]; [reflexivity |].
    rewrite filter_app. cbn. now rewrite app_nil_r.
Qed.

(** The clamp, by cases. *)
Lemma clamp_top_k_cases (k : Z) :
  1 <= MAX_TOP_K (settings env) ->
  1 <= clamp_top_k env k <= MAX_TOP_K (settings env)
  /\ (1 <= k <= MAX_TOP_K (settings env) -> clamp_top_k env k = k)
  /\ (k < 1 -> clamp_top_k env k = 1)
  /\ (MAX_TOP_K (settings env) < k ->
      clamp_top_k env k = MAX_TOP_K (settings env)).
Proof. unfold clamp_top_k. lia. Qed.

Lemma clamp_top_k_idempotent (k : Z) :
  clamp_top_k env (clamp_top_k env k) = clamp_top_k env k.
Proof. unfold clamp_top_k. lia. Qed.

(** The queries a run of the route sends to the store: none, or one of
    the clamped size. *)
Lemma sizes_unchanged (cs : list (Call float)) (c : Call float) :
  (forall e n, c <> CallCollectionQuery e n) ->
  queried_sizes (cs ++ [c]) = queried_sizes cs.
Proof.
  intros Hc. unfold queried_sizes. rewrite flat_map_app. cbn.
  destruct c; try now rewrite !app_nil_r.
  now elim (Hc query_embedding n_results).
Qed.

Lemma query_body_sizes (service : VectorDBService)
      (query_data : QueryRequest) (w w' : World float)
      (r : exn + QueryResponse float) :
  query_body env service query_data w = (r, w') ->
  queried_sizes (calls w') = queried_sizes (calls w)
  \/ queried_sizes (calls w')
     = queried_sizes (calls w) ++ [clamp_top_k env (top_k query_data)].
Proof.
  unfold query_body. set (k := clamp_top_k env (top_k query_data)).
  intros H. unfold bind in H.
  destruct (get_embedding env (question query_data) w)
    as [[e | emb] w1] eqn:Hemb;
    apply get_embedding_world in Hemb as (_ & _ & Hc1).
  all: assert (H1 : queried_sizes (calls w1) = queried_sizes (calls w))
    by (destruct Hc1 as [-> | ->];
        [reflexivity | apply sizes_unchanged; discriminate]).
  { inversion H; subst. now left. }
  rewrite query_run in H. destruct (collection service).
  2:{ inversion H; subst. now left. }
  assert (H2 : queried_sizes (calls (log (CallCollectionQuery emb k) w1))
               = queried_sizes (calls w) ++ [k]).
  { cbn [calls log]. unfold queried_sizes in *. rewrite flat_map_app, H1.
    reflexivity. }
  set (w2 := log (CallCollectionQuery emb k) w1) in *. clearbody w2.
  right. rewrite <- H2. clear H1 H2 Hc1.
  unfold lift, raise, ret in H.
  repeat split_run H; inversion H; subst; try reflexivity.
  all: match goal with
       | Hg : generate_answer _ _ _ _ = _ |- _ =>
           apply generate_answer_world in Hg as (_ & _ & [-> | ->])
       end.
  all: first [reflexivity | apply sizes_unchanged; discriminate].
Qed.

Lemma query_documents_sizes (query_data : QueryRequest) (w : World float) :
  let w' := snd (query_documents env query_data w) in
  queried_sizes (calls w') = queried_sizes (calls w)
  \/ queried_sizes (calls w')
     = queried_sizes (calls w) ++ [clamp_top_k env (top_k query_data)].
Proof.
  cbv zeta. unfold query_documents.
  destruct (vector_db_service env) as [service |]; [| now left].
  unfold try_except.
  destruct (query_body env service query_data w) as [[e | resp] w'] eqn:Hb;
    apply query_body_sizes in Hb; exact Hb.
Qed.

(** C5.  The size the route asks the vector store for is the requested
    [top_k] clamped into [[1, MAX_TOP_K]]: a run queries the store at
    most once, with that size; a [top_k] below 1 gives 1, one above
    [MAX_TOP_K] gives [MAX_TOP_K] (so 1000 against 10 asks for 10), one in
    range is kept; and the route treats an out-of-range [top_k] exactly
    as the clamped one, so it is not rejected. *)
Theorem top_k_is_clamped (query_data : QueryRequest) (w : World float) :
  1 <= MAX_TOP_K (settings env) ->
  let k := clamp_top_k env (top_k query_data) in
  let w' := snd (query_documents env query_data w) in
  (queried_sizes (calls w') = queried_sizes (calls w)
   \/ queried_sizes (calls w') = queried_sizes (calls w) ++ [k])
  /\ 1 <= k <= MAX_TOP_K (settings env)
  /\ (1 <= top_k query_data <= MAX_TOP_K (settings env) ->
      k = top_k query_data)
  /\ (top_k query_data < 1 -> k = 1)
  /\ (MAX_TOP_K (settings env) < top_k query_data ->
      k = MAX_TOP_K (settings env))
  /\ query_documents env query_data w
     = query_documents env {| question := question query_data;
                              top_k := k |} w.
Proof.
  intros Hmax k w'. split; [apply query_documents_sizes |].
  destruct (clamp_top_k_cases (top_k query_data) Hmax) as (H1 & H2 & H3 & H4).
  repeat split; try assumption; try apply H1.
  unfold query_documents, query_body. cbn [top_k question].
  subst k. now rewrite clamp_top_k_idempotent.
Qed.

Lemma nth_error_map_some {A B} (f : A -> B) (l : list A) (i : nat) (y : B) :
  nth_error (List.map f l) i = Some y ->
  exists x, nth_error l i = Some x /\ y = f x.
Proof.
  rewrite nth_error_map. destruct (nth_error l i) as [x |]; [| discriminate].
  cbn. intros H. inversion H. now exists x.
Qed.

Lemma nth_error_zip3 {A B C} (a : list A) (b : list B) (c : list C) :
  forall i x y z,
    nth_error (zip3 a b c) i = Some (x, y, z) ->
    nth_error a i = Some x /\ nth_error b i = Some y
    /\ nth_error c i = Some z.
Proof.
  revert b c. induction a as [| a0 a IH]; intros b c i x y z H.
  - destruct i; discriminate.
  - destruct b as [| b0 b]; [destruct i; discriminate |].
    destruct c as [| c0 c]; [destruct i; discriminate |].
    destruct i as [| i]; cbn in H |- *.
    + inversion H; subst. auto.
    + now apply IH.
Qed.

(** C6.  When the vector store reports distances, every chunk the route
    returns carries the score [round(1 - distance, 4)], computed from
    the distance the store reported at the chunk's position. *)
Theorem similarity_is_rounded_complement
        (service : VectorDBService) (query_data : QueryRequest)
        (w w1 w2 w' : World float) (embedding : list float)
        (results : QueryResult float) (distances : list float)
        (others : list (list float)) (response : QueryResponse float) :
  vector_db_service env = Some service ->
  get_embedding env (question query_data) w = (inr embedding, w1) ->
  query env service embedding (clamp_top_k env (top_k query_data)) w1
  = (inr results, w2) ->
  qr_distances results = Val (distances :: others) ->
  query_documents env query_data w = (inr response, w') ->
  forall i chunk,
    nth_error (chunks_used response) i = Some chunk ->
    exists distance,
      nth_error distances i = Some distance
      /\ nth_error (returned_ids results) i = Some (chunk_id chunk)
      /\ similarity_score chunk
         = fround env (fsub env (float_of_int env 1) distance) 4.
Proof.
  intros Hsvc Hemb Hq Hd Hrun i chunk Hi.
  unfold query_documents in Hrun. rewrite Hsvc in Hrun.
  unfold try_except, query_body in Hrun. unfold bind at 1 2 in Hrun.
  rewrite Hemb, Hq in Hrun.
  destruct (no_ids results) eqn:Hno.
  { unfold ret in Hrun. inversion Hrun; subst. destruct i; discriminate. }
  rewrite Hd in Hrun. unfold returned_ids.
  unfold_monad Hrun. cbn [get_default_first subscript_first] in Hrun.
  repeat split_run Hrun; try discriminate.
  inversion Hrun; subst; clear Hrun. cbn [chunks_used] in Hi.
  match goal with
  | H : subscript_first _ (qr_ids results) = inr ?l |- _ =>
      unfold subscript_first in H;
      destruct (qr_ids results) as [| | [| first rest]]; try discriminate;
      inversion H; subst; clear H
  end.
  apply nth_error_map_some in Hi as ([[cid ctext] score] & Hz & ->).
  apply nth_error_zip3 in Hz as (Hid & _ & Hs).
  apply nth_error_map_some in Hs as (distance & Hdist & ->).
  exists distance. cbn. auto.
Qed.

(** ** Ingestion *)

Lemma get_embeddings_batch_world (texts : list str) (w w' : World float)
      (r : exn + list (list float)) :
  get_embeddings_batch env texts w = (r, w') ->
  files w' = files w /\ rows w' = rows w
  /\ (calls w' = calls w \/ calls w' = calls w ++ [CallEmbeddings (inr texts)]).
Proof. apply embeddings_request_world. Qed.

Lemma added_ids_unchanged (cs : list (Call float)) (c : Call float) :
  (forall ids embs texts metas, c <> CallCollectionAdd ids embs texts metas) ->
  added_ids (cs ++ [c]) = added_ids cs.
Proof.
  intros Hc. unfold added_ids. rewrite flat_map_app. cbn.
  destruct c; try now rewrite !app_nil_r.
  now elim (Hc ids embeddings documents metadatas).
Qed.

Lemma index_calls_unchanged (cs : list (Call float)) (c : Call float) :
  is_index_call c = false -> index_calls (cs ++ [c]) = index_calls cs.
Proof.
  intros Hc. unfold index_calls. rewrite filter_app. cbn. rewrite Hc.
  apply app_nil_r.
Qed.

(** The test [if not chunks] of [create_document] fails whenever the
    test [if not extracted_text.strip()] before it did. *)
Lemma chunks_of_nonblank_text (text : str) (chunk_size overlap : option Z) :
  truthy (strip text) = true ->
  truthy (Chunking.chunk_text (settings env) text chunk_size overlap) = true.
Proof.
  intros H. apply truthy_true in H. apply strip_nonempty_iff in H.
  apply truthy_true. rewrite ChunkingFacts.chunk_text_words.
  intros Hnil. apply map_eq_nil in Hnil.
  apply split_nonempty in H. unfold ChunkModel.chunk_words in Hnil.
  destruct (split text); [contradiction |].
  unfold ChunkModel.full in Hnil. apply app_eq_nil in Hnil as [_ Hnil].
  discriminate.
Qed.

(** C10.  A text with a character that is not white space passes the
    empty-extraction check and is cut into at least one chunk, whatever
    the chunk size and overlap; and [create_document] never raises its
    "No chunks created from document" error. *)
Theorem no_chunks_branch_unreachable
        (doc_id filename : str) (content : bytes) (ftype : str)
        (w : World float) (text : str) :
  has_non_space text ->
  strip text <> []
  /\ (forall settings chunk_size overlap,
        Chunking.chunk_text settings text chunk_size overlap <> [])
  /\ (forall e w',
        create_document env doc_id filename content ftype w
        <> (inl (AtNoChunks, e), w')).
Proof.
  intros Htext. split; [now apply strip_nonempty_iff |]. split.
  - intros settings chunk_size overlap.
    rewrite ChunkingFacts.chunk_text_words. intros Hnil.
    apply map_eq_nil in Hnil. apply split_nonempty in Htext.
    unfold ChunkModel.chunk_words in Hnil.
    destruct (split text); [contradiction |].
    unfold ChunkModel.full in Hnil. apply app_eq_nil in Hnil as [_ Hnil].
    discriminate.
  - intros e w' H. unfold create_document in H. cbv zeta in H.
    unfold_monad H.
    repeat split_run H; try discriminate.
    match goal with
    | H1 : negb (truthy (strip ?t)) = false,
      H2 : negb (truthy (Chunking.chunk_text _ ?t _ _)) = true |- _ =>
        apply negb_false_iff in H1; apply negb_true_iff in H2;
        rewrite (chunks_of_nonblank_text t None None H1) in H2; discriminate
    end.
Qed.

(** C8, as the code has it.  When the file is written, the text
    extracted and not blank, the embedding of the chunks succeeds and the
    upsert into the vector store fails, [create_document] aborts at the
    upsert with the error of the upsert; the file written at the start
    stays in the file store, no relational row is written and no commit
    is attempted: the row is created only after the upsert. *)
Theorem upsert_failure_leaves_file_without_row
        (service : VectorDBService)
        (doc_id filename : str) (content : bytes) (ftype : str)
        (w w2 w3 : World float) (text : str)
        (embeddings : list (list float)) (e : exn) :
  let path := file_path_of env doc_id ftype in
  let chunks := Chunking.chunk_text (settings env) text None None in
  let ids := List.map (chunk_id_of doc_id) (range (len chunks)) in
  let metas :=
    List.map (chunk_metadata doc_id filename) (range (len chunks)) in
  vector_db_service env = Some service ->
  open_write env (calls w) path content = None ->
  extract_text env content ftype = inr text ->
  strip text <> [] ->
  get_embeddings_batch env chunks
    (store_file path content (log (CallOpenWrite path content) w))
  = (inr embeddings, w2) ->
  add_documents env service doc_id ids embeddings chunks metas w2
  = (inl e, w3) ->
  create_document env doc_id filename content ftype w
  = (inl (AtAddDocuments, e), w3)
  /\ files w3 = (path, content) :: files w
  /\ rows w3 = rows w
  /\ (forall doc, In (CallCommit doc) (calls w3) ->
                  In (CallCommit doc) (calls w)).
Proof.
  intros path chunks ids metas Hsvc Hopen Hx Hstrip Hemb Hadd.
  split.
  - unfold create_document. cbv zeta. rewrite Hsvc.
    fold path. unfold bind at 1. unfold at_site at 1.
    unfold try_except, command. rewrite Hopen.
    unfold_monad_goal. rewrite Hx.
    apply truthy_true in Hstrip. rewrite Hstrip.
    rewrite (chunks_of_nonblank_text text None None Hstrip).
    cbn [negb]. fold chunks. rewrite Hemb. fold ids. fold metas.
    rewrite Hadd. reflexivity.
  - apply get_embeddings_batch_world in Hemb as (Hf & Hr & Hc).
    cbn [files rows calls store_file log] in Hf, Hr, Hc.
    rewrite add_documents_run in Hadd.
    assert (Hw3 : files w3 = files w2 /\ rows w3 = rows w2
                  /\ (calls w3 = calls w2
                      \/ calls w3
                         = calls w2
                             ++ [CallCollectionAdd ids embeddings chunks metas])).
    { destruct (collection service); inversion Hadd; subst; cbn; auto. }
    destruct Hw3 as (Hf3 & Hr3 & Hc3).
    rewrite Hf3, Hr3, Hf, Hr. repeat split.
    intros doc Hin.
    assert (Hin2 : In (CallCommit doc) (calls w2)).
    { destruct Hc3 as [Hc3 | Hc3]; rewrite Hc3 in Hin; [exact Hin |].
      apply in_app_or in Hin as [Hin | [Hin | []]];
        [exact Hin | discriminate Hin]. }
    assert (Hin1 : In (CallCommit doc)
                      (calls w ++ [CallOpenWrite path content])).
    { destruct Hc as [Hc | Hc]; rewrite Hc in Hin2; [exact Hin2 |].
      apply in_app_or in Hin2 as [Hin2 | [Hin2 | []]];
        [exact Hin2 | discriminate Hin2]. }
    apply in_app_or in Hin1 as [Hin1 | [Hin1 | []]];
      [exact Hin1 | discriminate Hin1].
Qed.

(** The steps of a run of [create_document] that returns. *)
Lemma create_document_returns
      (doc_id filename : str) (content : bytes) (ftype : str)
      (w w' : World float) (doc : Document) :
  create_document env doc_id filename content ftype w = (inr doc, w') ->
  exists text embeddings w2 w3,
    let path := file_path_of env doc_id ftype in
    let chunks := Chunking.chunk_text (settings env) text None None in
    let ids := List.map (chunk_id_of doc_id) (range (len chunks)) in
    let metas :=
      List.map (chunk_metadata doc_id filename) (range (len chunks)) in
    extract_text env content ftype = inr text
    /\ chunks <> []
    /\ get_embeddings_batch env chunks
         (store_file path content (log (CallOpenWrite path content) w))
       = (inr embeddings, w2)
    /\ match vector_db_service env with
       | Some service =>
           add_documents env service doc_id ids embeddings chunks metas w2
           = (inr tt, w3)
       | None => w3 = w2
       end
    /\ doc = {| document_id := doc_id;
                original_filename := filename;
                file_path := path;
                file_type := file_ext_of env ftype;
                extracted_text := text;
                chunk_count := len chunks |}
    /\ w' = store_row doc (log (CallCommit doc) w3).
Proof.
  intros H. unfold create_document in H. cbv zeta in H.
  unfold bind at 1 in H. unfold at_site at 1 in H.
  unfold try_except, command in H.
  destruct (open_write env (calls w) (file_path_of env doc_id ftype) content);
    [discriminate |].
  unfold_monad H.
  destruct (extract_text env content ftype) as [e1 | text]; [discriminate |].
  destruct (negb (truthy (strip text))); [discriminate |].
  destruct (negb (truthy (Chunking.chunk_text (settings env) text None None)))
           eqn:Hchunks; [discriminate |].
  apply negb_false_iff, truthy_true in Hchunks.
  destruct (get_embeddings_batch env _ _) as [[e2 | embeddings] w2] eqn:Hemb;
    [discriminate |].
  exists text, embeddings, w2. cbv zeta.
  destruct (vector_db_service env) as [service |].
  - destruct (add_documents env service doc_id _ embeddings _ _ w2)
      as [[e3 | []] w3] eqn:Hadd; [discriminate |].
    exists w3.
    destruct (session_commit env (calls w3) _); [discriminate |].
    inversion H; subst. repeat split; auto.
  - exists w2.
    destruct (session_commit env (calls w2) _); [discriminate |].
    inversion H; subst. repeat split; auto.
Qed.

Lemma nth_error_range (n i : Z) :
  0 <= i < n -> nth_error (range n) (Z.to_nat i) = Some i.
Proof.
  intros Hi. unfold range. rewrite nth_error_map.
  rewrite nth_error_seq.
  destruct (Nat.ltb_spec (Z.to_nat i) (Z.to_nat n)); [| lia].
  cbn. f_equal. lia.
Qed.

Lemma length_range (n : Z) : 0 <= n -> len (range n) = n.
Proof.
  intros Hn. unfold len, range. rewrite length_map, length_seq. lia.
Qed.

(** C3, as the code has it.  For a document ingested while the vector
    store service object is there, the chunk identifiers handed to the
    store are exactly the strings [f"{document_id}_chunk_{i}"] for [i]
    from 0 up to the [chunk_count] persisted with the document, in that
    order; they are the identifiers the detail route rebuilds from the
    row, and the ones it asks the store for. *)
Theorem stored_ids_are_reconstructible
        (service : VectorDBService)
        (doc_id filename : str) (content : bytes) (ftype : str)
        (w w' : World float) (doc : Document) :
  vector_db_service env = Some service ->
  create_document env doc_id filename content ftype w = (inr doc, w') ->
  let ids := reconstructed_chunk_ids doc_id doc in
  added_ids (calls w') = added_ids (calls w) ++ ids
  /\ rows w' = rows w ++ [doc]
  /\ document_id doc = doc_id
  /\ len ids = chunk_count doc
  /\ 1 <= chunk_count doc
  /\ (forall i, 0 <= i < chunk_count doc ->
                nth_error ids (Z.to_nat i) = Some (chunk_id_of doc_id i))
  /\ (forall w2 : World float,
        lookup_document doc_id w2 = Some doc ->
        calls (snd (get_document env doc_id w2))
        = calls w2 ++ [CallCollectionGet ids]).
Proof.
  intros Hsvc Hrun ids.
  apply create_document_returns in Hrun
    as (text & embeddings & w2 & w3 & Hx & Hne & Hemb & Hadd & Hdoc & Hw').
  rewrite Hsvc in Hadd.
  set (chunks := Chunking.chunk_text (settings env) text None None) in *.
  clearbody chunks.
  assert (Hcount : chunk_count doc = len chunks) by now subst doc.
  assert (Hpos : 1 <= len chunks).
  { destruct chunks; [congruence | unfold len; cbn; lia]. }
  apply get_embeddings_batch_world in Hemb as (Hf & Hr & Hc).
  rewrite add_documents_run in Hadd.
  destruct (collection service) as [h |] eqn:Hcoll; [| discriminate].
  inversion Hadd as [[Hok Hw3]]. clear Hadd Hok.
  assert (Hids : ids = List.map (chunk_id_of doc_id) (range (len chunks))).
  { unfold ids, reconstructed_chunk_ids. now rewrite Hcount. }
  repeat split.
  - rewrite Hw'. cbn [calls store_row log]. rewrite <- Hw3. cbn [calls log].
    rewrite <- Hids.
    destruct Hc as [-> | ->]; cbn [calls store_file log]; unfold added_ids;
      rewrite !flat_map_app; cbn [flat_map app]; now rewrite ?app_nil_r.
  - rewrite Hw'. cbn [rows store_row log]. rewrite <- Hw3. cbn [rows log].
    now rewrite Hr.
  - now subst doc.
  - rewrite Hids. unfold len at 1. rewrite length_map.
    fold (len (range (len chunks))). rewrite length_range by lia.
    now rewrite Hcount.
  - lia.
  - intros i Hi. rewrite Hids, nth_error_map, nth_error_range by lia.
    reflexivity.
  - intros w4 Hlook. unfold get_document. rewrite Hlook, Hsvc.
    unfold bind at 1. unfold try_except. unfold bind at 1.
    rewrite get_chunks_run, Hcoll. fold ids. unfold_monad_goal.
    destruct (collection_get env (calls w4) ids) as [e | results];
      [reflexivity |].
    destruct (get_or_empty (lit "ids") (gr_ids results)); [reflexivity |].
    destruct (get_or_empty (lit "documents") (gr_documents results));
      reflexivity.
Qed.

(** ** The vector store when it was never initialized *)

Lemma delete_document_run_uninitialized (self : VectorDBService)
      (doc_id : str) (w : World float) :
  collection self = None ->
  delete_document env self doc_id w = (inl not_initialized, w).
Proof. intros H. unfold delete_document. now rewrite H. Qed.

(** Without the service object, ingestion calls the store at no point. *)
Lemma create_document_skips_index
      (doc_id filename : str) (content : bytes) (ftype : str)
      (w w' : World float) (r : site * exn + Document) :
  vector_db_service env = None ->
  create_document env doc_id filename content ftype w = (r, w') ->
  index_calls (calls w') = index_calls (calls w).
Proof.
  intros Hsvc H. unfold create_document in H. cbv zeta in H.
  rewrite Hsvc in H.
  unfold bind at 1 in H. unfold at_site at 1 in H.
  unfold try_except, command in H.
  destruct (open_write env (calls w) (file_path_of env doc_id ftype) content).
  { unfold raise in H. inversion H; subst. cbn [calls log].
    now apply index_calls_unchanged. }
  assert (H1 : index_calls
                 (calls (store_file (file_path_of env doc_id ftype) content
                           (log (CallOpenWrite (file_path_of env doc_id ftype)
                                               content) w)))
               = index_calls (calls w))
    by (cbn [calls store_file log]; now apply index_calls_unchanged).
  set (w1 := store_file _ _ _) in *. clearbody w1.
  rewrite <- H1. clear H1.
  unfold_monad H.
  destruct (extract_text env content ftype) as [e1 | text];
    [now inversion H |].
  destruct (negb (truthy (strip text))); [now inversion H |].
  destruct (negb (truthy (Chunking.chunk_text (settings env) text None None)));
    [now inversion H |].
  destruct (get_embeddings_batch env _ w1) as [[e2 | embeddings] w2] eqn:Hemb;
    apply get_embeddings_batch_world in Hemb as (_ & _ & Hc).
  all: assert (H2 : index_calls (calls w2) = index_calls (calls w1))
    by (destruct Hc as [-> | ->];
        [reflexivity | now apply index_calls_unchanged]).
  { now inversion H; subst. }
  rewrite <- H2.
  destruct (session_commit env (calls w2) _); inversion H; subst;
    cbn [calls store_row log]; now apply index_calls_unchanged.
Qed.

(** C9, as the code has it.  A service object whose collection was never
    initialized raises "Vector database not initialized" from each of its
    four operations and touches nothing; the query route then answers
    500, and ingestion cannot return a document.  When the service
    object itself is absent, the query route answers 500 "Vector
    database not available" at once, while ingestion skips the upsert,
    never calls the store, and returns the document once its other
    steps succeed. *)
Theorem uninitialized_index_behaviour :
  (forall service, collection service = None ->
     (forall doc_id ids embeddings texts metas (w : World float),
        add_documents env service doc_id ids embeddings texts metas w
        = (inl not_initialized, w))
     /\ (forall e n w, query env service e n w = (inl not_initialized, w))
     /\ (forall ids w, get_chunks env service ids w = (inl not_initialized, w))
     /\ (forall doc_id w,
           delete_document env service doc_id w = (inl not_initialized, w))
     /\ (vector_db_service env = Some service ->
         (forall query_data w embedding w1,
            get_embedding env (question query_data) w = (inr embedding, w1) ->
            query_documents env query_data w
            = (inl {| status_code := 500;
                      detail := lit "Query failed: Vector database not initialized" |},
               w1))
         /\ (forall doc_id filename content ftype w doc w',
               create_document env doc_id filename content ftype w
               <> (inr doc, w'))))
  /\ (vector_db_service env = None ->
      (forall query_data w,
         query_documents env query_data w
         = (inl {| status_code := 500;
                   detail := lit "Vector database not available" |}, w))
      /\ (forall doc_id filename content ftype w r w',
            create_document env doc_id filename content ftype w = (r, w') ->
            index_calls (calls w') = index_calls (calls w))
      /\ (forall doc_id filename content ftype w text embeddings w2,
            let path := file_path_of env doc_id ftype in
            let chunks := Chunking.chunk_text (settings env) text None None in
            let doc := {| document_id := doc_id;
                          original_filename := filename;
                          file_path := path;
                          file_type := file_ext_of env ftype;
                          extracted_text := text;
                          chunk_count := len chunks |} in
            open_write env (calls w) path content = None ->
            extract_text env content ftype = inr text ->
            strip text <> [] ->
            get_embeddings_batch env chunks
              (store_file path content (log (CallOpenWrite path content) w))
            = (inr embeddings, w2) ->
            session_commit env (calls w2) doc = None ->
            create_document env doc_id filename content ftype w
            = (inr doc, store_row doc (log (CallCommit doc) w2)))).
Proof.
  split.
  - intros service Hcoll. repeat split.
    + intros. now rewrite add_documents_run, Hcoll.
    + intros. now rewrite query_run, Hcoll.
    + intros. now rewrite get_chunks_run, Hcoll.
    + intros. now apply delete_document_run_uninitialized.
    + intros query_data w embedding w1 Hemb.
      unfold query_documents. rewrite H.
      unfold try_except, query_body. unfold bind at 1 2.
      rewrite Hemb, query_run, Hcoll. reflexivity.
    + intros doc_id filename content ftype w doc w' Hrun.
      apply create_document_returns in Hrun
        as (text & embeddings & w2 & w3 & _ & _ & _ & Hadd & _).
      rewrite H, add_documents_run, Hcoll in Hadd. discriminate.
  - intros Hsvc. repeat split.
    + intros. unfold query_documents. now rewrite Hsvc.
    + intros. eapply create_document_skips_index; eassumption.
    + intros doc_id filename content ftype w text embeddings w2 path chunks
             doc Hopen Hx Hstrip Hemb Hcommit.
      unfold create_document. cbv zeta. rewrite Hsvc.
      fold path. unfold bind at 1. unfold at_site at 1.
      unfold try_except, command. rewrite Hopen.
      unfold_monad_goal. rewrite Hx.
      apply truthy_true in Hstrip. rewrite Hstrip.
      rewrite (chunks_of_nonblank_text text None None Hstrip).
      cbn [negb]. fold chunks. rewrite Hemb. fold doc. rewrite Hcommit.
      reflexivity.
Qed.

End ServiceFacts.

(** * Further properties of the chunker *)

Section ChunkerShape.

Import Chunking ChunkModel ChunkShape ChunkingFacts.

Lemma truthy_nonempty {A} (l : list A) : truthy l = true -> l <> [].
Proof. destruct l; [discriminate | intros _; discriminate]. Qed.

Lemma sum_cost_snoc (ws : list str) (w : str) :
  sum_cost (ws ++ [w]) = sum_cost ws + word_cost w.
Proof. unfold sum_cost. now rewrite map_app, fold_left_app. Qed.

Lemma word_cost_nonneg (w : str) : 0 <= word_cost w.
Proof. unfold word_cost, len. apply Z.div_pos; lia. Qed.

Lemma sum_cost_nonneg (ws : list str) : 0 <= sum_cost ws.
Proof.
  induction ws as [| w ws IH] using rev_ind; [cbn; lia |].
  rewrite sum_cost_snoc. pose proof (word_cost_nonneg w). lia.
Qed.

(** The loop keeps [current_length] equal to the cost of the open
    chunk. *)
Lemma run_length (cs ov : Z) (words : list str) :
  cur_length (run cs ov words) = sum_cost (cur (run cs ov words)).
Proof.
  induction words as [| w words IH] using rev_ind; [reflexivity |].
  rewrite run_snoc. unfold wstep.
  destruct ((cur_length (run cs ov words) + word_cost w >? cs)
            && truthy (cur (run cs ov words))); cbn [cur cur_length].
  - reflexivity.
  - now rewrite sum_cost_snoc, IH.
Qed.

Lemma overlap_words_short (ov : Z) (a : list str) :
  1 <= ov -> (List.length (overlap_words ov a) <= Z.to_nat ov)%nat.
Proof.
  intros Hov. rewrite overlap_words_length by exact Hov.
  unfold seed_size. lia.
Qed.

Lemma run_within_target (cs ov : Z) (words : list str) :
  1 <= ov ->
  forall c, In c (full (run cs ov words)) -> within_target cs ov c.
Proof.
  intros Hov. induction words as [| w words IH] using rev_ind.
  - intros c [<- | []]. right. cbn. lia.
  - intros c. rewrite run_snoc. pose proof (run_length cs ov words) as Hlen.
    set (st := run cs ov words) in *. unfold full, wstep.
    destruct ((cur_length st + word_cost w >? cs) && truthy (cur st))
             eqn:Hcond; cbn [closed cur]; intros Hin;
      apply in_app_or in Hin as [Hin | [<- | []]].
    + apply IH. exact Hin.
    + right. rewrite length_app. cbn.
      pose proof (overlap_words_short (cur st) Hov). lia.
    + apply IH. unfold full. apply in_or_app. now left.
    + apply andb_false_iff in Hcond as [Hcond | Hcond].
      * left. rewrite sum_cost_snoc, <- Hlen.
        destruct (Z.gtb_spec (cur_length st + word_cost w) cs);
          [discriminate | lia].
      * right. destruct (cur st); [cbn; lia | discriminate].
Qed.

(** While the words read so far fit the target, none is closed. *)
Lemma run_fits (cs ov : Z) (words : list str) :
  sum_cost words <= cs ->
  run cs ov words
  = {| closed := []; cur := words; cur_length := sum_cost words |}.
Proof.
  induction words as [| w words IH] using rev_ind; [reflexivity |].
  rewrite sum_cost_snoc. intros Hfit.
  pose proof (word_cost_nonneg w) as Hw.
  rewrite run_snoc, IH by lia. unfold wstep. cbn [cur cur_length closed].
  destruct (Z.gtb_spec (sum_cost words + word_cost w) cs); [lia |].
  reflexivity.
Qed.

(** Each iteration closes at most one chunk, and the first closes
    none. *)
Lemma run_count (cs ov : Z) (words : list str) :
  (List.length (closed (run cs ov words)) + 1 <= List.length words)%nat
  \/ words = [].
Proof.
  induction words as [| w words IH] using rev_ind; [now right |].
  left. rewrite run_snoc, length_app. cbn [List.length]. unfold wstep.
  destruct IH as [IH | ->].
  - destruct ((cur_length (run cs ov words) + word_cost w >? cs)
              && truthy (cur (run cs ov words))); cbn [closed];
      rewrite ?length_app; cbn [List.length]; lia.
  - unfold run. cbn [fold_left winit cur cur_length].
    rewrite andb_false_r. cbn. lia.
Qed.

(** The open chunk is the end of the words read so far, and each closed
    chunk is a run of consecutive words among them. *)
Lemma overlap_words_suffix (ov : Z) (a : list str) :
  exists front, a = front ++ overlap_words ov a.
Proof.
  unfold overlap_words, slice_from. destruct (len a >? ov).
  - eexists. symmetry. apply firstn_skipn.
  - now exists [].
Qed.

Lemma run_contiguous (cs ov : Z) (words : list str) :
  (exists before, words = before ++ cur (run cs ov words))
  /\ (forall c, In c (closed (run cs ov words)) -> run_of c words).
Proof.
  induction words as [| w words [[before Hcur] Hclosed]] using rev_ind.
  - split; [now exists [] | intros c []].
  - rewrite run_snoc. set (st := run cs ov words) in *. unfold wstep.
    destruct ((cur_length st + word_cost w >? cs) && truthy (cur st));
      cbn [closed cur]; split.
    + destruct (overlap_words_suffix ov (cur st)) as [front Hfront].
      exists (before ++ front). rewrite Hcur at 1. rewrite Hfront at 1.
      now rewrite <- !app_assoc.
    + intros c Hin. apply in_app_or in Hin as [Hin | [<- | []]].
      * destruct (Hclosed c Hin) as (b & a & Hw).
        exists b, (a ++ [w]). rewrite Hw. now rewrite <- !app_assoc.
      * exists before, [w]. rewrite Hcur at 1. now rewrite <- app_assoc.
    + exists before. rewrite Hcur at 1. now rewrite <- app_assoc.
    + intros c Hin. destruct (Hclosed c Hin) as (b & a & Hw).
      exists b, (a ++ [w]). rewrite Hw. now rewrite <- !app_assoc.
Qed.

Lemma run_closed_nonempty (cs ov : Z) (words : list str) :
  forall c, In c (closed (run cs ov words)) -> c <> [].
Proof.
  induction words as [| x words IH] using rev_ind; [intros c [] |].
  intros c. rewrite run_snoc. unfold wstep.
  destruct ((cur_length (run cs ov words) + word_cost x >? cs)
            && truthy (cur (run cs ov words))) eqn:Hcond;
    cbn [closed]; [| apply IH].
  intros Hin. apply in_app_or in Hin as [Hin | [<- | []]];
    [now apply IH |].
  apply andb_true_iff in Hcond as [_ Hcond]. now apply truthy_nonempty.
Qed.

Variable settings : Settings.

(** X3. The target size is a soft bound: with an overlap of at least one
    word, a returned chunk costs at most [chunk_size], or else it has at
    most [overlap + 1] words (the seed and the word that followed). *)
Theorem chunk_size_is_soft_bound
        (text : str) (chunk_size overlap : option Z) (chunk : str) :
  1 <= or_default overlap (CHUNK_OVERLAP settings) ->
  In chunk (chunk_text settings text chunk_size overlap) ->
  sum_cost (words_of chunk) <= or_default chunk_size (CHUNK_SIZE settings)
  \/ (List.length (words_of chunk)
      <= Z.to_nat (or_default overlap (CHUNK_OVERLAP settings)) + 1)%nat.
Proof.
  intros Hov Hin. apply (in_map words_of) in Hin.
  rewrite chunk_text_split in Hin. unfold chunk_words in Hin.
  destruct (split text); [destruct Hin |].
  exact (run_within_target _ _ Hov _ Hin).
Qed.

(** X4. A text whose words together cost no more than [chunk_size] comes
    back as one chunk: its words joined by single spaces. *)
Theorem short_text_is_one_chunk
        (text : str) (chunk_size overlap : option Z) :
  has_non_space text ->
  sum_cost (split text) <= or_default chunk_size (CHUNK_SIZE settings) ->
  chunk_text settings text chunk_size overlap
  = [join (lit " ") (split text)].
Proof.
  intros Htext Hfit. apply split_nonempty in Htext.
  rewrite chunk_text_words. unfold chunk_words.
  destruct (split text) as [| w ws] eqn:Hs; [contradiction |].
  now rewrite run_fits by exact Hfit.
Qed.

(** X5. There are never more chunks than words. *)
Theorem chunk_count_at_most_word_count
        (text : str) (chunk_size overlap : option Z) :
  (List.length (chunk_text settings text chunk_size overlap)
   <= List.length (split text))%nat.
Proof.
  rewrite chunk_text_words, length_map. unfold chunk_words.
  destruct (split text) as [| w ws] eqn:Hs; [cbn; lia |].
  rewrite <- Hs. unfold full. rewrite length_app. cbn [List.length].
  destruct (run_count (or_default chunk_size (CHUNK_SIZE settings))
                      (or_default overlap (CHUNK_OVERLAP settings))
                      (split text)) as [H | H]; [exact H |].
  rewrite Hs in H. discriminate.
Qed.

(** X6. Every returned chunk is a run of consecutive words of the text,
    joined by single spaces: it is not empty, and the chunker neither
    reorders words nor makes any up. *)
Theorem chunk_is_run_of_words
        (text : str) (chunk_size overlap : option Z) (chunk : str) :
  In chunk (chunk_text settings text chunk_size overlap) ->
  chunk <> []
  /\ chunk = join (lit " ") (words_of chunk)
  /\ exists before after,
       split text = before ++ words_of chunk ++ after.
Proof.
  intros Hin. rewrite chunk_text_words in Hin.
  apply in_map_iff in Hin as (c & <- & Hc).
  set (cs := or_default chunk_size (CHUNK_SIZE settings)) in *.
  set (ov := or_default overlap (CHUNK_OVERLAP settings)) in *.
  assert (Hwords : Forall is_word c).
  { pose proof (chunk_words_are_words cs ov text) as Hall.
    rewrite Forall_forall in Hall. now apply Hall. }
  unfold words_of. rewrite split_join by exact Hwords.
  unfold chunk_words in Hc.
  destruct (split text) as [| w ws] eqn:Hs; [destruct Hc |].
  rewrite <- Hs in *.
  assert (Hne : c <> []).
  { unfold full in Hc. apply in_app_or in Hc as [Hc | [<- | []]].
    - now apply (run_closed_nonempty cs ov (split text)).
    - apply run_cur_nonempty. rewrite Hs. discriminate. }
  split; [| split; [reflexivity |]].
  - destruct c as [| x c]; [congruence |].
    destruct Hwords as [| x' c' [Hx _] _]; [congruence |].
    destruct c'; cbn; [exact Hx |].
    destruct x'; [congruence | discriminate].
  - destruct (run_contiguous cs ov (split text)) as [[before Hcur] Hcl].
    unfold full in Hc. apply in_app_or in Hc as [Hc | [<- | []]].
    + exact (Hcl c Hc).
    + exists before, []. now rewrite app_nil_r.
Qed.

End ChunkerShape.

(** * Further properties of the service *)

Section QueryBehaviour.

Variable float : Type.
Variable env : Env float.

Ltac open_monad H :=
  unfold bind, at_site, try_except, command, call, lift, raise, ret in H.

Ltac split_on H :=
  match type of H with
  | context [match ?x with _ => _ end] =>
      lazymatch x with
      | context [match _ with _ => _ end] => fail
      | _ => destruct x eqn:?
      end
  end.

(** A request that returns has been sent. *)
Lemma get_embedding_returns (t : str) (w w1 : World float)
      (embedding : list float) :
  get_embedding env t w = (inr embedding, w1) ->
  w1 = log (CallEmbeddings (inl t)) w /\ OPENROUTER_API_KEY (settings env) <> [].
Proof.
  unfold get_embedding, embeddings_request. intros H. open_monad H.
  destruct (OPENROUTER_API_KEY (settings env)); cbn [truthy negb] in H;
    [discriminate |].
  repeat split_on H; inversion H; subst; split; [reflexivity | discriminate].
Qed.

Lemma generate_answer_returns (q : str) (texts : list str)
      (w w' : World float) (answer_data : str * str) :
  generate_answer env q texts w = (inr answer_data, w') ->
  w' = log (CallChat system_message (build_prompt q texts)) w
  /\ snd answer_data = LLM_MODEL (settings env)
  /\ exists chat,
       post_chat env (calls w) system_message (build_prompt q texts)
       = inr chat
       /\ chat_status_code chat = 200
       /\ chat_content chat = inr (fst answer_data).
Proof.
  unfold generate_answer. intros H. open_monad H.
  destruct (negb (truthy (OPENROUTER_API_KEY (settings env))));
    [discriminate |].
  destruct (post_chat env (calls w) system_message (build_prompt q texts))
    as [e | chat]; [discriminate |].
  destruct (chat_status_code chat =? 401) eqn:H401.
  { repeat split_on H; discriminate. }
  destruct (chat_status_code chat =? 200) eqn:H200; cbn [negb] in H;
    [| discriminate].
  destruct (chat_content chat) as [e | content] eqn:Hcontent;
    [discriminate |].
  inversion H; subst. cbn. repeat split.
  exists chat. repeat split; [now apply Z.eqb_eq | exact Hcontent].
Qed.

(** The shape of a response, from the answer of the store. *)
Lemma query_response_shape
      (service : VectorDBService) (query_data : QueryRequest)
      (w w1 w2 w' : World float) (embedding : list float)
      (results : QueryResult float) (response : QueryResponse float) :
  vector_db_service env = Some service ->
  get_embedding env (question query_data) w = (inr embedding, w1) ->
  query env service embedding (clamp_top_k env (top_k query_data)) w1
  = (inr results, w2) ->
  query_documents env query_data w = (inr response, w') ->
  (no_ids results = true /\ response = fallback_response env /\ w' = w2)
  \/ (no_ids results = false
      /\ exists metadatas distances ids answer_data,
           subscript_first (lit "metadatas") (qr_metadatas results)
           = inr metadatas
           /\ get_default_first
                (qr_distances results)
                [repeat (float_of_int env 0)
                        (List.length (returned_ids results))]
              = inr distances
           /\ qr_documents results
              = Val (returned_texts results
                       :: match qr_documents results with
                          | Val (_ :: rest) => rest
                          | _ => []
                          end)
           /\ metadata_document_ids metadatas = inr ids
           /\ generate_answer env (question query_data)
                              (returned_texts results) w2
              = (inr answer_data, w')
           /\ validate_strings (nodup mvalue_eq_dec ids)
              = inr (document_ids response)
           /\ answer response = fst answer_data
           /\ model response = snd answer_data
           /\ chunks_used response
              = List.map
                  (fun t => match t with
                            | (cid, ctext, score) =>
                                {| chunk_id := cid;
                                   text := ctext;
                                   similarity_score := fround env score 4 |}
                            end)
                  (zip3 (returned_ids results) (returned_texts results)
                        (List.map (fun dist =>
                                     fsub env (float_of_int env 1) dist)
                                  distances))).
Proof.
  intros Hsvc Hemb Hq Hrun.
  unfold query_documents in Hrun. rewrite Hsvc in Hrun.
  unfold try_except, query_body in Hrun. unfold bind at 1 2 in Hrun.
  rewrite Hemb, Hq in Hrun.
  destruct (no_ids results) eqn:Hno.
  { left. unfold ret in Hrun. inversion Hrun; subst. auto. }
  right. split; [reflexivity |].
  unfold no_ids in Hno. unfold returned_ids, returned_texts.
  destruct (qr_ids results) as [| | [| chunk_ids others]] eqn:Hids;
    try discriminate.
  cbn [subscript_first] in Hrun. unfold lift at 1 in Hrun.
  unfold bind at 1 in Hrun.
  destruct (qr_documents results) as [| | [| texts others']] eqn:Hdocs;
    cbn [subscript_first] in Hrun;
    try (open_monad Hrun; repeat split_on Hrun; discriminate).
  open_monad Hrun.
  destruct (subscript_first (lit "metadatas") (qr_metadatas results))
    as [e | metadatas] eqn:Hmeta; [discriminate |].
  destruct (get_default_first (qr_distances results) _)
    as [e | distances] eqn:Hdist; [discriminate |].
  destruct (metadata_document_ids metadatas) as [e | ids] eqn:Hmids;
    [discriminate |].
  destruct (generate_answer env (question query_data) texts w2)
    as [[e | answer_data] w3] eqn:Hgen; [discriminate |].
  destruct (validate_strings (nodup mvalue_eq_dec ids)) as [e | doc_ids]
    eqn:Hval; [discriminate |].
  inversion Hrun; subst. cbn.
  exists metadatas, distances, ids, answer_data. repeat split; auto.
Qed.

Lemma no_ids_false_iff (results : QueryResult float) :
  no_ids results = false <-> returned_ids results <> [].
Proof.
  destruct (no_ids results) eqn:H.
  - apply no_ids_iff in H. split; [discriminate | congruence].
  - split; [| reflexivity]. intros _ Hnil. apply no_ids_iff in Hnil.
    congruence.
Qed.

(** X7. Every failure of the query route is reported with status 500, a
    missing or rejected credential included, and its detail names its
    cause: without a service object nothing is attempted and the detail
    is "Vector database not available"; with one, the failure is the
    exception that the body of the route raised, and the detail is
    "Query failed: " followed by the text of that very exception. *)
Theorem query_failures_are_500
        (query_data : QueryRequest) (w w' : World float)
        (failure : HTTPException) :
  query_documents env query_data w = (inl failure, w') ->
  status_code failure = 500
  /\ ((vector_db_service env = None
       /\ detail failure = lit "Vector database not available"
       /\ w' = w)
      \/ exists service e,
           vector_db_service env = Some service
           /\ query_body env service query_data w = (inl e, w')
           /\ detail failure = lit "Query failed: " ++ exn_str e).
Proof.
  unfold query_documents. intros H.
  destruct (vector_db_service env) as [service |].
  - unfold try_except in H.
    destruct (query_body env service query_data w) as [[e | response] w1]
      eqn:Hbody; inversion H; subst. cbn. split; [reflexivity |].
    right. exists service, e.
    split; [reflexivity | split; [exact Hbody | reflexivity]].
  - inversion H; subst. cbn. split; [reflexivity |]. left.
    split; [reflexivity | split; reflexivity].
Qed.

Lemma query_body_frame (service : VectorDBService)
      (query_data : QueryRequest) (w w' : World float)
      (r : exn + QueryResponse float) :
  query_body env service query_data w = (r, w') ->
  files w' = files w /\ rows w' = rows w.
Proof.
  unfold query_body. intros H. unfold bind in H.
  destruct (get_embedding env (question query_data) w)
    as [[e | emb] w1] eqn:Hemb;
    apply get_embedding_world in Hemb as (Hf1 & Hr1 & _).
  { inversion H; subst. auto. }
  rewrite query_run in H. destruct (collection service).
  2:{ inversion H; subst. auto. }
  rewrite <- Hf1, <- Hr1.
  change (files w1) with (files (log (CallCollectionQuery emb
                                        (clamp_top_k env (top_k query_data))) w1)).
  change (rows w1) with (rows (log (CallCollectionQuery emb
                                      (clamp_top_k env (top_k query_data))) w1)).
  set (w2 := log _ w1) in *. clearbody w2.
  unfold lift, raise, ret in H.
  repeat split_on H; inversion H; subst; auto.
  all: match goal with
       | Hg : generate_answer _ _ _ _ = _ |- _ =>
           apply generate_answer_world in Hg as (Hf & Hr & _); auto
       end.
Qed.

(** X8. The query route and the detail route write no file and no row,
    whatever they return. *)
Theorem read_routes_write_nothing
        (query_data : QueryRequest) (doc_id : str) (w : World float) :
  files (snd (query_documents env query_data w)) = files w
  /\ rows (snd (query_documents env query_data w)) = rows w
  /\ files (snd (get_document env doc_id w)) = files w
  /\ rows (snd (get_document env doc_id w)) = rows w.
Proof.
  assert (Hq : files (snd (query_documents env query_data w)) = files w
               /\ rows (snd (query_documents env query_data w)) = rows w).
  { unfold query_documents.
    destruct (vector_db_service env) as [service |]; [| now split].
    unfold try_except.
    destruct (query_body env service query_data w) as [[e | resp] w'] eqn:Hb;
      apply query_body_frame in Hb; exact Hb. }
  assert (Hd : files (snd (get_document env doc_id w)) = files w
               /\ rows (snd (get_document env doc_id w)) = rows w).
  { unfold get_document.
    destruct (lookup_document doc_id w) as [doc |]; [| now split].
    destruct (vector_db_service env) as [service |]; [| now split].
    unfold bind, try_except, lift, ret. rewrite get_chunks_run.
    repeat match goal with
           | |- context [match ?x with _ => _ end] =>
               lazymatch x with
               | context [match _ with _ => _ end] => fail
               | _ => destruct x
               end
           end; now split. }
  tauto.
Qed.

(** X9. A query that finds chunks makes three outside calls, in this order:
    one embedding request for the question, one query of the store for
    the clamped number of results, one completion request whose prompt
    is built from the returned texts in their order.  The answer is the
    content of the completion, and the model is the configured one. *)
Theorem answered_query_makes_three_calls
        (service : VectorDBService) (query_data : QueryRequest)
        (w w1 w2 w' : World float) (embedding : list float)
        (results : QueryResult float) (response : QueryResponse float) :
  vector_db_service env = Some service ->
  get_embedding env (question query_data) w = (inr embedding, w1) ->
  query env service embedding (clamp_top_k env (top_k query_data)) w1
  = (inr results, w2) ->
  returned_ids results <> [] ->
  query_documents env query_data w = (inr response, w') ->
  let prompt :=
    build_prompt (question query_data) (returned_texts results) in
  calls w'
  = calls w ++ [CallEmbeddings (inl (question query_data));
                CallCollectionQuery embedding
                                    (clamp_top_k env (top_k query_data));
                CallChat system_message prompt]
  /\ model response = LLM_MODEL (settings env)
  /\ exists chat,
       post_chat env (calls w2) system_message prompt = inr chat
       /\ chat_status_code chat = 200
       /\ chat_content chat = inr (answer response).
Proof.
  intros Hsvc Hemb Hq Hsome Hrun prompt.
  apply no_ids_false_iff in Hsome.
  destruct (@query_response_shape service query_data w w1 w2 w' embedding
                                    results response Hsvc Hemb Hq Hrun)
    as [(Hno & _) | (_ & metadatas & distances & ids & answer_data & _ & _
                     & _ & _ & Hgen & _ & Hanswer & Hmodel & _)];
    [congruence |].
  apply generate_answer_returns in Hgen as (Hw' & Hm & chat & Hpost & H200 & Hc).
  apply get_embedding_returns in Hemb as (Hw1 & _).
  rewrite query_run in Hq. destruct (collection service); [| discriminate].
  inversion Hq as [[Hres Hw2]]. subst w' w1.
  repeat split.
  - rewrite <- Hw2. cbn [calls log]. now rewrite <- !app_assoc.
  - congruence.
  - exists chat. rewrite Hanswer. subst prompt.
    repeat split; try assumption. now rewrite Hw2.
Qed.

Lemma zip3_firsts {A B C} (a : list A) (b : list B) (c : list C) :
  List.map (fun t => fst (fst t)) (zip3 a b c)
  = firstn (List.length (zip3 a b c)) a
  /\ List.map (fun t => snd (fst t)) (zip3 a b c)
     = firstn (List.length (zip3 a b c)) b
  /\ List.length (zip3 a b c)
     = Nat.min (Nat.min (List.length a) (List.length b)) (List.length c).
Proof.
  revert b c. induction a as [| x a IH]; intros b c; [now cbn |].
  destruct b as [| y b]; [now cbn |].
  destruct c as [| z c]; [cbn; repeat split; try reflexivity; lia |].
  destruct (IH b c) as (H1 & H2 & H3). cbn.
  repeat split; [f_equal; exact H1 | f_equal; exact H2 | now rewrite H3].
Qed.

(** X10. The chunks of a response are the chunks the store returned, in the
    store's order, cut to the shortest of the identifier, text and
    distance lists. *)
Theorem chunks_keep_the_ranking
        (service : VectorDBService) (query_data : QueryRequest)
        (w w1 w2 w' : World float) (embedding : list float)
        (results : QueryResult float) (response : QueryResponse float) :
  vector_db_service env = Some service ->
  get_embedding env (question query_data) w = (inr embedding, w1) ->
  query env service embedding (clamp_top_k env (top_k query_data)) w1
  = (inr results, w2) ->
  query_documents env query_data w = (inr response, w') ->
  let n := List.length (chunks_used response) in
  List.map (@chunk_id float) (chunks_used response)
  = firstn n (returned_ids results)
  /\ List.map (@text float) (chunks_used response)
     = firstn n (returned_texts results)
  /\ (returned_ids results <> [] ->
      exists distances,
        get_default_first
          (qr_distances results)
          [repeat (float_of_int env 0) (List.length (returned_ids results))]
        = inr distances
        /\ n = Nat.min (Nat.min (List.length (returned_ids results))
                                (List.length (returned_texts results)))
                       (List.length distances)).
Proof.
  intros Hsvc Hemb Hq Hrun n.
  destruct (@query_response_shape service query_data w w1 w2 w' embedding
                                    results response Hsvc Hemb Hq Hrun)
    as [(Hno & -> & _) | (Hno & metadatas & distances & ids & answer_data & _
                          & Hdist & _ & _ & _ & _ & _ & _ & Hused)].
  - subst n. cbn. apply no_ids_iff in Hno. repeat split.
    intros Hne. congruence.
  - set (scores := List.map (fun dist => fsub env (float_of_int env 1) dist)
                            distances) in *.
    destruct (zip3_firsts (returned_ids results) (returned_texts results)
                          scores) as (H1 & H2 & H3).
    assert (Hn : n = List.length (zip3 (returned_ids results)
                                       (returned_texts results) scores))
      by (subst n; now rewrite Hused, length_map).
    rewrite Hn, <- H1, <- H2, Hused, !map_map. repeat split.
    + apply map_ext. now intros [[cid ctext] score].
    + apply map_ext. now intros [[cid ctext] score].
    + intros _. exists distances. split; [exact Hdist |].
      rewrite H3. unfold scores. now rewrite length_map.
Qed.

Lemma metadata_document_ids_spec (metadatas : list metadata) :
  forall ids, metadata_document_ids metadatas = inr ids ->
  forall v, In v ids
            <-> exists meta, In meta metadatas
                             /\ dict_get (lit "document_id") meta = inr v.
Proof.
  induction metadatas as [| meta rest IH]; intros ids H v.
  - inversion H; subst. split; [intros [] | intros (m & [] & _)].
  - cbn [metadata_document_ids] in H.
    destruct (dict_get (lit "document_id") meta) as [e | v0] eqn:Hget;
      [discriminate |].
    destruct (metadata_document_ids rest) as [e | vs]; [discriminate |].
    inversion H; subst. specialize (IH vs eq_refl v). split.
    + intros [<- | Hin].
      * exists meta. split; [now left | exact Hget].
      * apply IH in Hin as (m & Hm & Hv). exists m. split; [now right | exact Hv].
    + intros (m & [<- | Hm] & Hv).
      * left. congruence.
      * right. apply IH. now exists m.
Qed.

Lemma validate_strings_spec (vs : list mvalue) :
  forall ss, validate_strings vs = inr ss -> vs = List.map MStr ss.
Proof.
  induction vs as [| [s | i] vs IH]; intros ss H; cbn in H.
  - now inversion H.
  - destruct (validate_strings vs) as [e | ss']; [discriminate |].
    inversion H; subst. cbn. f_equal. now apply IH.
  - discriminate.
Qed.

(** X11. The [document_ids] of a response that found chunks hold each source
    document of the returned chunks once: no identifier twice, none that
    is not the [document_id] of a returned chunk's metadata, and none of
    those left out. *)
Theorem document_ids_are_the_distinct_sources
        (service : VectorDBService) (query_data : QueryRequest)
        (w w1 w2 w' : World float) (embedding : list float)
        (results : QueryResult float) (response : QueryResponse float) :
  vector_db_service env = Some service ->
  get_embedding env (question query_data) w = (inr embedding, w1) ->
  query env service embedding (clamp_top_k env (top_k query_data)) w1
  = (inr results, w2) ->
  returned_ids results <> [] ->
  query_documents env query_data w = (inr response, w') ->
  NoDup (document_ids response)
  /\ forall doc_id,
       In doc_id (document_ids response)
       <-> exists meta, In meta (returned_metadatas results)
                        /\ source_of meta doc_id.
Proof.
  intros Hsvc Hemb Hq Hsome Hrun. apply no_ids_false_iff in Hsome.
  destruct (@query_response_shape service query_data w w1 w2 w' embedding
                                  results response Hsvc Hemb Hq Hrun)
    as [(Hno & _) | (_ & metadatas & distances & ids & answer_data & Hmeta
                     & _ & _ & Hmids & _ & Hval & _)];
    [congruence |].
  assert (Hret : returned_metadatas results = metadatas).
  { unfold returned_metadatas, subscript_first in *.
    destruct (qr_metadatas results) as [| | [| first rest]];
      try discriminate. congruence. }
  apply validate_strings_spec in Hval. rewrite Hret. split.
  - apply (NoDup_map_inv MStr). rewrite <- Hval. apply NoDup_nodup.
  - intros doc_id. unfold source_of.
    rewrite <- (metadata_document_ids_spec _ Hmids (MStr doc_id)).
    rewrite <- (nodup_In mvalue_eq_dec), Hval, in_map_iff. split.
    + intros Hin. now exists doc_id.
    + intros (d & Heq & Hin). congruence.
Qed.

Lemma in_zip3_third {A B C} (a : list A) (b : list B) (c : list C) :
  forall x y z, In (x, y, z) (zip3 a b c) -> In z c.
Proof.
  revert b c. induction a as [| x0 a IH]; intros b c x y z H; [destruct H |].
  destruct b as [| y0 b]; [destruct H |].
  destruct c as [| z0 c]; [destruct H |].
  destruct H as [H | H].
  - inversion H. now left.
  - right. eapply IH. exact H.
Qed.

(** X12. When the store's answer has no [distances] key, every distance is
    taken to be [0.0]: each returned chunk gets the score
    [round(1 - 0.0, 4)]. *)
Theorem missing_distances_count_as_zero
        (service : VectorDBService) (query_data : QueryRequest)
        (w w1 w2 w' : World float) (embedding : list float)
        (results : QueryResult float) (response : QueryResponse float) :
  vector_db_service env = Some service ->
  get_embedding env (question query_data) w = (inr embedding, w1) ->
  query env service embedding (clamp_top_k env (top_k query_data)) w1
  = (inr results, w2) ->
  qr_distances results = Missing ->
  query_documents env query_data w = (inr response, w') ->
  forall chunk,
    In chunk (chunks_used response) ->
    similarity_score chunk
    = fround env (fsub env (float_of_int env 1) (float_of_int env 0)) 4.
Proof.
  intros Hsvc Hemb Hq Hmiss Hrun chunk Hin.
  destruct (@query_response_shape service query_data w w1 w2 w' embedding
                                  results response Hsvc Hemb Hq Hrun)
    as [(_ & -> & _) | (_ & metadatas & distances & ids & answer_data & _
                        & Hdist & _ & _ & _ & _ & _ & _ & Hused)];
    [destruct Hin |].
  rewrite Hmiss in Hdist. cbn in Hdist. inversion Hdist; subst distances.
  rewrite Hused in Hin. apply in_map_iff in Hin as ([[cid ctext] score] & <- & Hz).
  apply in_zip3_third in Hz. apply in_map_iff in Hz as (dist & <- & Hd).
  apply repeat_spec in Hd. subst dist. reflexivity.
Qed.

(** X13. The context block of the prompt numbers the chunks from 1, in the
    order given: the [i]-th label (from 0) is [[Chunk i+1]: ] followed by
    the [i]-th text. *)
Theorem context_labels_count_from_one (context_chunks : list str) :
  List.length (labelled 0 context_chunks) = List.length context_chunks
  /\ forall i chunk,
       nth_error context_chunks i = Some chunk ->
       nth_error (labelled 0 context_chunks) i
       = Some (lit "[Chunk " ++ str_of_int (Z.of_nat i + 1) ++ lit "]: "
                   ++ chunk).
Proof.
  assert (H : forall l start,
             List.length (labelled start l) = List.length l
             /\ forall i chunk,
                  nth_error l i = Some chunk ->
                  nth_error (labelled start l) i
                  = Some (lit "[Chunk "
                              ++ str_of_int (start + Z.of_nat i + 1)
                              ++ lit "]: " ++ chunk)).
  { induction l as [| c l IH]; intros start.
    - split; [reflexivity | intros [| i] chunk Hi; discriminate].
    - destruct (IH (start + 1)) as [Hlen Hnth]. split.
      + cbn. now rewrite Hlen.
      + intros [| i] chunk Hi.
        * cbn in Hi. inversion Hi; subst. cbn [labelled nth_error].
          now rewrite Z.add_0_r.
        * cbn [labelled nth_error]. rewrite (Hnth i chunk Hi).
          replace (start + Z.of_nat (S i) + 1)
            with (start + 1 + Z.of_nat i + 1) by lia.
          reflexivity. }
  exact (H context_chunks 0).
Qed.

End QueryBehaviour.

Section IngestBehaviour.

Variable float : Type.
Variable env : Env float.

Ltac open_run H :=
  unfold bind, at_site, try_except, command, call, lift, raise, ret in H.

(** What a run of [create_document] leaves in the file store and in the
    table, by its outcome. *)
Lemma create_document_effects
      (doc_id filename : str) (content : bytes) (ftype : str)
      (w w' : World float) (r : site * exn + Document) :
  create_document env doc_id filename content ftype w = (r, w') ->
  match r with
  | inl (AtOpenWrite, _) =>
      rows w' = rows w
      /\ calls w'
         = calls w ++ [CallOpenWrite (file_path_of env doc_id ftype) content]
  | inl (AtCommit, _) =>
      files w' = (file_path_of env doc_id ftype, content) :: files w
  | inl _ =>
      files w' = (file_path_of env doc_id ftype, content) :: files w
      /\ rows w' = rows w
  | inr doc =>
      files w' = (file_path_of env doc_id ftype, content) :: files w
      /\ rows w' = rows w ++ [doc]
  end.
Proof.
  intros H. unfold create_document in H. cbv zeta in H.
  unfold bind at 1 in H. unfold at_site at 1 in H.
  unfold try_except, command in H.
  destruct (open_write env (calls w) (file_path_of env doc_id ftype) content).
  { unfold raise in H. inversion H; subst. cbn. auto. }
  set (w1 := store_file (file_path_of env doc_id ftype) content (log _ w)) in *.
  assert (Hw1 : files w1 = (file_path_of env doc_id ftype, content) :: files w
                /\ rows w1 = rows w) by (subst w1; cbn; auto).
  clearbody w1. destruct Hw1 as [Hf1 Hr1]. rewrite <- Hf1, <- Hr1.
  open_run H.
  destruct (extract_text env content ftype) as [e1 | text];
    [inversion H; subst; auto |].
  destruct (negb (truthy (strip text))); [inversion H; subst; auto |].
  destruct (negb (truthy (Chunking.chunk_text (settings env) text None None)));
    [inversion H; subst; auto |].
  destruct (get_embeddings_batch env _ w1) as [[e2 | embeddings] w2] eqn:Hemb;
    apply get_embeddings_batch_world in Hemb as (Hf2 & Hr2 & _);
    rewrite <- Hf2, <- Hr2; [inversion H; subst; auto |].
  assert (Hadd : forall (r3 : exn + unit) (w3 : World float) service ids metas,
             add_documents env service doc_id ids embeddings
               (Chunking.chunk_text (settings env) text None None) metas w2
             = (r3, w3) ->
             files w3 = files w2 /\ rows w3 = rows w2).
  { intros r3 w3 service ids metas Ha. rewrite add_documents_run in Ha.
    destruct (collection service); inversion Ha; subst; cbn; auto. }
  destruct (vector_db_service env) as [service |].
  - destruct (add_documents env service doc_id _ embeddings _ _ w2)
      as [[e3 | []] w3] eqn:Ha; apply Hadd in Ha as [Hf3 Hr3];
      rewrite <- Hf3, <- Hr3; [inversion H; subst; auto |].
    destruct (session_commit env (calls w3) _); inversion H; subst; cbn; auto.
  - destruct (session_commit env (calls w2) _); inversion H; subst; cbn; auto.
Qed.

(** X14. The relational row is the last thing [create_document] writes:
    a run that raises at the file write, at the extraction, at the check
    for an empty text or for no chunks, at the embedding or at the
    upsert leaves the table as it was, and a run that returns has
    appended the returned document and nothing else.  (Nothing is said
    of a failure within [db.add], [db.commit] and [db.refresh].) *)
Theorem row_is_written_only_on_return
        (doc_id filename : str) (content : bytes) (ftype : str)
        (w w' : World float) (r : site * exn + Document) :
  create_document env doc_id filename content ftype w = (r, w') ->
  match r with
  | inl (AtCommit, _) => True
  | inl _ => rows w' = rows w
  | inr doc => rows w' = rows w ++ [doc]
  end.
Proof.
  intros H. apply create_document_effects in H.
  destruct r as [[[] e] | doc]; tauto.
Qed.

(** X15. There is no cleanup of the uploaded file: once the [with] block
    that writes it is left, the file stays in the file store whatever
    fails afterwards (an unsupported type, an empty text, the embedding,
    the upsert, the commit).  When the run fails within that block,
    nothing else was attempted and the table is as it was. *)
Theorem file_outlives_any_later_failure
        (doc_id filename : str) (content : bytes) (ftype : str)
        (w w' : World float) (at_ : site) (e : exn) :
  create_document env doc_id filename content ftype w = (inl (at_, e), w') ->
  (at_ <> AtOpenWrite ->
   files w' = (file_path_of env doc_id ftype, content) :: files w)
  /\ (at_ = AtOpenWrite ->
      rows w' = rows w
      /\ calls w'
         = calls w ++ [CallOpenWrite (file_path_of env doc_id ftype) content]).
Proof.
  intros H. apply create_document_effects in H.
  destruct at_; split; intros Hs; try congruence; tauto.
Qed.

Lemma nth_error_range_nat (n : Z) (i : nat) :
  (i < Z.to_nat n)%nat -> nth_error (range n) i = Some (Z.of_nat i).
Proof.
  intros Hi. unfold range. rewrite nth_error_map, nth_error_seq.
  destruct (Nat.ltb_spec i (Z.to_nat n)); [reflexivity | lia].
Qed.

(** X16. A run of [create_document] that returns, with the service object
    there, has made four outside calls in this order: the file write,
    one embedding request for all chunks, one [collection.add] for all
    chunks, the commit.  The [i]-th entry of the batch carries the
    identifier [f"{document_id}_chunk_{i}"], the [i]-th chunk of the
    persisted text, and a metadata dict naming the document, the index
    [i] and the file name. *)
Theorem ingestion_is_one_batch
        (service : VectorDBService)
        (doc_id filename : str) (content : bytes) (ftype : str)
        (w w' : World float) (doc : Document) :
  vector_db_service env = Some service ->
  create_document env doc_id filename content ftype w = (inr doc, w') ->
  let chunks :=
    Chunking.chunk_text (settings env) (extracted_text doc) None None in
  let ids := List.map (chunk_id_of doc_id) (range (len chunks)) in
  let metas :=
    List.map (chunk_metadata doc_id filename) (range (len chunks)) in
  (exists embeddings,
     calls w'
     = calls w ++ [CallOpenWrite (file_path_of env doc_id ftype) content;
                   CallEmbeddings (inr chunks);
                   CallCollectionAdd ids embeddings chunks metas;
                   CallCommit doc])
  /\ List.length ids = List.length chunks
  /\ List.length metas = List.length chunks
  /\ forall i chunk,
       nth_error chunks i = Some chunk ->
       nth_error ids i = Some (chunk_id_of doc_id (Z.of_nat i))
       /\ exists meta,
            nth_error metas i = Some meta
            /\ dict_get (lit "document_id") meta = inr (MStr doc_id)
            /\ dict_get (lit "chunk_index") meta = inr (MInt (Z.of_nat i))
            /\ dict_get (lit "filename") meta = inr (MStr filename).
Proof.
  intros Hsvc Hrun chunks ids metas.
  apply create_document_returns in Hrun
    as (text & embeddings & w2 & w3 & Hx & Hne & Hemb & Hadd & Hdoc & Hw').
  rewrite Hsvc in Hadd.
  assert (Htext : extracted_text doc = text) by now subst doc.
  subst chunks ids metas. rewrite Htext.
  set (chunks := Chunking.chunk_text (settings env) text None None) in *.
  assert (Hlen : Z.to_nat (len chunks) = List.length chunks)
    by (unfold len; lia).
  repeat split.
  - exists embeddings.
    unfold get_embeddings_batch, embeddings_request in Hemb. open_run Hemb.
    destruct (negb (truthy (OPENROUTER_API_KEY (settings env))));
      [discriminate |].
    assert (Hw2 : w2 = log (CallEmbeddings (inr chunks))
                           (store_file (file_path_of env doc_id ftype) content
                              (log (CallOpenWrite
                                      (file_path_of env doc_id ftype) content)
                                   w))).
    { destruct (post_embeddings env _ _); [discriminate |].
      destruct (negb (emb_status_code _ =? 200)); [discriminate |].
      now inversion Hemb. }
    rewrite add_documents_run in Hadd.
    destruct (collection service); [| discriminate].
    inversion Hadd as [[Hok Hw3]]. rewrite Hw', <- Hw3, Hw2.
    cbn [calls store_row store_file log]. now rewrite <- !app_assoc.
  - unfold range. now rewrite !length_map, length_seq.
  - unfold range. now rewrite !length_map, length_seq.
  - rewrite nth_error_map, nth_error_range_nat; [reflexivity |].
    rewrite Hlen. apply nth_error_Some. congruence.
  - exists (chunk_metadata doc_id filename (Z.of_nat i)). split.
    + rewrite nth_error_map, nth_error_range_nat; [reflexivity |].
      rewrite Hlen. apply nth_error_Some. congruence.
    + repeat split; reflexivity.
Qed.

(** Printing numbers and literals loses nothing. *)
Lemma lit_injective (a b : string) : lit a = lit b -> a = b.
Proof.
  unfold lit. intros H.
  apply (f_equal (List.map ascii_of_N)) in H.
  rewrite !map_map in H.
  rewrite (map_ext _ (fun x => x)) in H by apply ascii_N_embedding.
  rewrite (map_ext (fun x => ascii_of_N (N_of_ascii x)) (fun x => x)) in H
    by apply ascii_N_embedding.
  rewrite !map_id in H.
  apply (f_equal string_of_list_ascii) in H.
  now rewrite !string_of_list_ascii_of_string in H.
Qed.

Lemma str_of_nat_injective (n m : nat) : str_of_nat n = str_of_nat m -> n = m.
Proof.
  unfold str_of_nat. intros H. apply lit_injective in H.
  apply DecimalNat.Unsigned.to_uint_inj.
  apply (f_equal NilEmpty.uint_of_string) in H.
  rewrite !NilEmpty.usu in H. congruence.
Qed.

Lemma chunk_id_of_injective (doc_id : str) (i j : nat) :
  chunk_id_of doc_id (Z.of_nat i) = chunk_id_of doc_id (Z.of_nat j) -> i = j.
Proof.
  unfold chunk_id_of, str_of_int. intros H.
  apply app_inv_head in H. apply app_inv_head in H.
  destruct (Z.ltb_spec (Z.of_nat i) 0); [lia |].
  destruct (Z.ltb_spec (Z.of_nat j) 0); [lia |].
  apply str_of_nat_injective in H. lia.
Qed.

Lemma NoDup_map_injective {A B} (f : A -> B) (l : list A) :
  (forall x y, f x = f y -> x = y) -> NoDup l -> NoDup (List.map f l).
Proof.
  intros Hinj. induction 1 as [| x l Hx Hl IH]; cbn; constructor.
  - intros Hin. apply in_map_iff in Hin as (y & Hy & Hin).
    apply Hinj in Hy. now subst.
  - exact IH.
Qed.

(** X17. The chunk identifiers of one document are pairwise distinct,
    whatever its chunk count. *)
Theorem chunk_ids_are_distinct (doc_id : str) (doc : Document) :
  NoDup (reconstructed_chunk_ids doc_id doc).
Proof.
  unfold reconstructed_chunk_ids, range. rewrite map_map.
  apply NoDup_map_injective; [apply chunk_id_of_injective | apply seq_NoDup].
Qed.

Lemma str_eqb_eq (a b : str) : str_eqb a b = true <-> a = b.
Proof.
  unfold str_eqb. destruct (list_eq_dec N.eq_dec a b); split;
    congruence.
Qed.

Lemma find_snoc {A} (f : A -> bool) (l : list A) (x : A) :
  find f (l ++ [x])
  = match find f l with
    | Some y => Some y
    | None => if f x then Some x else None
    end.
Proof.
  induction l as [| y l IH]; cbn; [reflexivity |].
  destruct (f y); [reflexivity | exact IH].
Qed.

(** X18. After [create_document] returns a document under an identifier that
    no row had, looking that identifier up gives the document, and
    every other identifier is looked up as before. *)
Theorem ingested_document_is_found
        (doc_id filename : str) (content : bytes) (ftype : str)
        (w w' : World float) (doc : Document) :
  lookup_document doc_id w = None ->
  create_document env doc_id filename content ftype w = (inr doc, w') ->
  lookup_document doc_id w' = Some doc
  /\ forall other, other <> doc_id ->
                   lookup_document other w' = lookup_document other w.
Proof.
  intros Hnew Hrun.
  pose proof (create_document_effects _ _ _ _ _ Hrun) as [_ Hrows].
  apply create_document_returns in Hrun
    as (text & embeddings & w2 & w3 & _ & _ & _ & _ & Hdoc & _).
  assert (Hid : document_id doc = doc_id) by now subst doc.
  unfold lookup_document in *. rewrite Hrows, !find_snoc. split.
  - rewrite Hnew, Hid.
    destruct (str_eqb doc_id doc_id) eqn:He; [reflexivity |].
    assert (str_eqb doc_id doc_id = true) by now apply str_eqb_eq.
    congruence.
  - intros other Hother.
    intros. rewrite find_snoc.
    destruct (find (fun d => str_eqb (document_id d) other) (rows w));
      [reflexivity |].
    rewrite Hid. destruct (str_eqb doc_id other) eqn:He; [| reflexivity].
    apply str_eqb_eq in He. congruence.
Qed.

End IngestBehaviour.

Section RouteBehaviour.

Variable float : Type.
Variable env : Env float.

Ltac split_goal :=
  repeat match goal with
         | |- context [match ?x with _ => _ end] =>
             lazymatch x with
             | context [match _ with _ => _ end] => fail
             | _ => destruct x eqn:?
             end
         end.

Lemma detail_route_chunks
      (doc_id : str) (w : World float) (doc : Document) :
  lookup_document doc_id w = Some doc ->
  let ids := reconstructed_chunk_ids doc_id doc in
  exists chunks,
    fst (get_document env doc_id w)
    = inr {| detail_document := doc; detail_chunks := chunks |}
    /\ (vector_db_service env = None -> chunks = [])
    /\ (forall service,
          vector_db_service env = Some service ->
          (collection service = None -> chunks = [])
          /\ (collection service <> None ->
              (forall e, collection_get env (calls w) ids = inl e ->
                         chunks = [])
              /\ (forall found texts,
                    collection_get env (calls w) ids
                    = inr {| gr_ids := Val found;
                             gr_documents := Val texts |} ->
                    chunks = combine found texts))).
Proof.
  intros Hlook ids.
  unfold get_document. rewrite Hlook. fold ids.
  destruct (vector_db_service env) as [service |] eqn:Hsvc.
  2:{ exists []. cbn. repeat split; congruence. }
  unfold bind, try_except, lift, ret. rewrite get_chunks_run.
  destruct (collection service) as [h |] eqn:Hcoll.
  2:{ exists []. cbn. split; [reflexivity |]. split; [congruence |].
      intros service' Heq.
      assert (service' = service) by congruence. subst service'.
      split; [reflexivity | congruence]. }
  destruct (collection_get env (calls w) ids) as [e | results] eqn:Hget;
    [| destruct (get_or_empty (lit "ids") (gr_ids results))
         as [e1 | found] eqn:Hids;
       [| destruct (get_or_empty (lit "documents") (gr_documents results))
            as [e2 | texts] eqn:Hdocs]].
  all: eexists; cbn [fst]; split; [reflexivity |].
  all: split; [congruence |].
  all: intros service' Heq;
    assert (service' = service) by congruence; subst service'.
  all: split; [congruence |]; intros _; split;
    [intros e' He'; try reflexivity; congruence |].
  all: intros found' texts' Hr; rewrite ?Hget in Hr; try discriminate.
  all: injection Hr as ->; cbn in Hids; try discriminate.
  all: cbn in Hdocs; try discriminate; congruence.
Qed.

(** X19. The detail route answers 404 for an unknown identifier and, for a
    stored document, always returns it: when the store is absent, not
    initialized, or raises, the chunk list is empty; when the store
    answers with identifiers and texts, the chunk list pairs them in
    order. *)
Theorem detail_route_survives_the_store
        (doc_id : str) (w : World float) (doc : Document) :
  lookup_document doc_id w = Some doc ->
  let ids := reconstructed_chunk_ids doc_id doc in
  (exists chunks,
     fst (get_document env doc_id w)
     = inr {| detail_document := doc; detail_chunks := chunks |}
     /\ (vector_db_service env = None -> chunks = [])
     /\ (forall service,
           vector_db_service env = Some service ->
           (collection service = None -> chunks = [])
           /\ (collection service <> None ->
               (forall e, collection_get env (calls w) ids = inl e ->
                          chunks = [])
               /\ (forall found texts,
                     collection_get env (calls w) ids
                     = inr {| gr_ids := Val found;
                              gr_documents := Val texts |} ->
                     chunks = combine found texts))))
  /\ (forall w0, lookup_document doc_id w0 = None ->
                 get_document env doc_id w0
                 = (inl {| status_code := 404;
                           detail := lit "Document not found" |}, w0)).
Proof.
  intros Hlook ids. split.
  - now apply detail_route_chunks.
  - intros w0 H0. unfold get_document. now rewrite H0.
Qed.

(** X20. Without a configured credential the embedding and completion calls
    raise before any request leaves the process.  The query route then
    answers 500 without an outside call; ingestion never returns a
    document and never calls the store; and the upload route reports
    that error with status 401. *)
Theorem missing_credential_stops_before_any_request :
  OPENROUTER_API_KEY (settings env) = [] ->
  (forall t w, get_embedding env t w = (inl api_key_not_set, w))
  /\ (forall texts w,
        get_embeddings_batch env texts w = (inl api_key_not_set, w))
  /\ (forall q texts w,
        generate_answer env q texts w = (inl api_key_not_set, w))
  /\ (forall service query_data w,
        vector_db_service env = Some service ->
        query_documents env query_data w
        = (inl {| status_code := 500;
                  detail := lit "Query failed: "
                              ++ exn_str api_key_not_set |}, w))
  /\ (forall doc_id filename content ftype w r w',
        create_document env doc_id filename content ftype w = (r, w') ->
        (forall doc, r <> inr doc)
        /\ index_calls (calls w') = index_calls (calls w)
        /\ (forall e, r = inl (AtEmbeddings, e) -> e = api_key_not_set))
  /\ (forall ctx,
        upload_error env ctx api_key_not_set
        = {| status_code := 401; detail := exn_str api_key_not_set |}).
Proof.
  intros Hkey.
  assert (Hreq : forall input w,
             embeddings_request env input w = (inl api_key_not_set, w)).
  { intros. unfold embeddings_request. now rewrite Hkey. }
  assert (Hemb : forall t w, get_embedding env t w = (inl api_key_not_set, w)).
  { intros. unfold get_embedding, bind. now rewrite Hreq. }
  split; [exact Hemb |]. split; [intros; apply Hreq |].
  split; [intros; unfold generate_answer; now rewrite Hkey |].
  split.
  { intros service query_data w Hsvc. unfold query_documents. rewrite Hsvc.
    unfold try_except, query_body. unfold bind at 1. now rewrite Hemb. }
  split; [| intros ctx; reflexivity].
  intros doc_id filename content ftype w r w' Hrun. split.
  { intros doc ->.
    apply create_document_returns in Hrun
      as (text & embeddings & w2 & w3 & _ & _ & Hb & _).
    unfold get_embeddings_batch in Hb. rewrite Hreq in Hb. discriminate. }
  unfold create_document in Hrun. cbv zeta in Hrun.
  unfold bind, at_site, try_except, command, lift, raise, ret in Hrun.
  unfold get_embeddings_batch in Hrun.
  repeat match type of Hrun with
         | context [embeddings_request env ?i ?x] =>
             rewrite (Hreq i x) in Hrun
         | context [match ?x with _ => _ end] =>
             lazymatch x with
             | context [match _ with _ => _ end] => fail
             | _ => destruct x eqn:?
             end
         end; inversion Hrun; subst; cbn [calls log store_file];
    rewrite ?index_calls_unchanged by reflexivity;
    (split; [reflexivity | intros e' He'; congruence]).
Qed.

(** ** The upload route *)

Lemma upload_error_status (ctx : UploadContext) (e : exn) :
  let failure := upload_error env ctx e in
  (status_code failure = 400 \/ status_code failure = 401
   \/ status_code failure = 500)
  /\ (status_code failure = 500 ->
      detail failure = lit "Upload failed: " ++ exn_str e)
  /\ (status_code failure <> 500 -> detail failure = exn_str e)
  /\ (status_code failure = 400 -> is_value_error ctx e = true).
Proof.
  cbv zeta. unfold upload_error.
  destruct (is_value_error ctx e);
    match goal with
    | |- context [if ?b then _ else _] => destruct b
    end; cbn; repeat split; auto; try congruence; try lia.
Qed.

(** X21. The upload route answers with status 400, 401 or 500 and no other.
    Status 500 is kept for exceptions that [except ValueError] does not
    catch, and its detail is ["Upload failed: "] followed by the message
    of the exception; status 400 is given only to refused requests and
    to exceptions that derive from [ValueError]. *)
Theorem upload_failures_are_400_401_500
        (ctx : UploadContext) (doc_id : str) (file : UploadFile)
        (w w' : World float) (failure : HTTPException) :
  upload_document env ctx doc_id file w = (inl failure, w') ->
  (status_code failure = 400 \/ status_code failure = 401
   \/ status_code failure = 500)
  /\ (status_code failure = 500 ->
      exists at_ e,
        fst (create_document env doc_id (filename_or_default file)
                             (upload_bytes file)
                             (str_lower env (match content_type file with
                                             | Some ctype => ctype
                                             | None => []
                                             end)) w)
        = inl (at_, e)
        /\ is_value_error ctx e = false
        /\ detail failure = lit "Upload failed: " ++ exn_str e).
Proof.
  unfold upload_document. intros H.
  destruct (content_type file) as [[| c ctype] |];
    try (inversion H; subst; cbn; split; [auto | discriminate]).
  destruct (negb (existsb _ supported_types));
    [inversion H; subst; cbn; split; [auto | discriminate] |].
  destruct (len (upload_bytes file) >? MAX_FILE_SIZE ctx);
    [inversion H; subst; cbn; split; [auto | discriminate] |].
  unfold try_except, bind, ret, raise in H.
  destruct (create_document env doc_id (filename_or_default file)
                            (upload_bytes file) (str_lower env (c :: ctype)) w)
    as [[[at_ e] | doc] w1] eqn:Hrun; [| discriminate].
  inversion H; subst. cbn [snd fst].
  destruct (upload_error_status ctx e) as (Hst & H500 & Hother & H400).
  split; [exact Hst |]. intros Hs. exists at_, e. repeat split.
  - unfold upload_error in Hs.
    destruct (is_value_error ctx e); [| reflexivity].
    match type of Hs with
    | context [if ?b then _ else _] => destruct b
    end; cbn in Hs; discriminate.
  - now apply H500.
Qed.

(** X22. A request without a content type, with one that names none of the
    supported types, or with more than [MAX_FILE_SIZE] bytes is refused
    with status 400 before anything happens: no file is written and no
    outside call is made. *)
Theorem refused_upload_has_no_effect
        (ctx : UploadContext) (doc_id : str) (file : UploadFile)
        (w : World float) :
  content_type file = None
  \/ content_type file = Some []
  \/ (exists ctype,
        content_type file = Some ctype
        /\ existsb (fun t => contains t (str_lower env ctype)) supported_types
           = false)
  \/ MAX_FILE_SIZE ctx < len (upload_bytes file) ->
  snd (upload_document env ctx doc_id file w) = w
  /\ exists failure,
       fst (upload_document env ctx doc_id file w) = inl failure
       /\ status_code failure = 400.
Proof.
  unfold upload_document.
  intros [H | [H | [(ctype & H & Hun) | H]]].
  - rewrite H. cbn. split; [reflexivity | eexists; split; reflexivity].
  - rewrite H. cbn. split; [reflexivity | eexists; split; reflexivity].
  - rewrite H. destruct ctype;
      [cbn; split; [reflexivity | eexists; split; reflexivity] |].
    rewrite Hun. cbn. split; [reflexivity | eexists; split; reflexivity].
  - destruct (content_type file) as [[| c ctype] |];
      try (cbn; split; [reflexivity | eexists; split; reflexivity]).
    destruct (negb (existsb _ supported_types));
      [cbn; split; [reflexivity | eexists; split; reflexivity] |].
    destruct (Z.gtb_spec (len (upload_bytes file)) (MAX_FILE_SIZE ctx));
      [| lia].
    cbn. split; [reflexivity | eexists; split; reflexivity].
Qed.

(** X23. An upload that succeeds reports the identifier drawn for the
    document and a chunk count of at least one; the file is in the file
    store, within the size limit, and the table has the row with that
    identifier and chunk count. *)
Theorem accepted_upload_is_persisted
        (ctx : UploadContext) (doc_id : str) (file : UploadFile)
        (w w' : World float) (response : DocumentUploadResponse) :
  upload_document env ctx doc_id file w = (inr response, w') ->
  upload_document_id response = doc_id
  /\ 1 <= upload_chunk_count response
  /\ len (upload_bytes file) <= MAX_FILE_SIZE ctx
  /\ (exists path, files w' = (path, upload_bytes file) :: files w)
  /\ exists doc,
       rows w' = rows w ++ [doc]
       /\ document_id doc = doc_id
       /\ chunk_count doc = upload_chunk_count response
       /\ original_filename doc = filename_or_default file.
Proof.
  unfold upload_document. intros H.
  destruct (content_type file) as [[| c ctype] |]; try discriminate.
  destruct (negb (existsb _ supported_types)); [discriminate |].
  destruct (Z.gtb_spec (len (upload_bytes file)) (MAX_FILE_SIZE ctx));
    [discriminate |].
  unfold try_except, bind, ret, raise in H.
  destruct (create_document env doc_id (filename_or_default file)
                            (upload_bytes file) (str_lower env (c :: ctype)) w)
    as [[[at_ e] | doc] w1] eqn:Hrun; [discriminate |].
  inversion H; subst. cbn.
  pose proof Hrun as Heff. apply create_document_effects in Heff.
  destruct Heff as [Hfiles Hrows].
  apply create_document_returns in Hrun
    as (text & embeddings & w2 & w3 & _ & Hne & _ & _ & Hdoc & _).
  assert (Hpos : 1 <= len (Chunking.chunk_text (settings env) text None None)).
  { destruct (Chunking.chunk_text (settings env) text None None);
      [congruence | unfold len; cbn; lia]. }
  repeat split.
  - now subst doc.
  - now subst doc.
  - lia.
  - eexists. exact Hfiles.
  - exists doc. subst doc. cbn. repeat split. exact Hrows.
Qed.


(** ** Deleting a document from the store *)

(** X25. With a collection, [delete_document] first asks the store for the
    chunks whose metadata names the document, then deletes exactly the
    identifiers it was given; when there are none it deletes nothing, so
    [collection.delete] is never called with an empty list. *)
Theorem delete_removes_what_the_store_found
        (self : VectorDBService) (doc_id : str) (w w' : World float)
        (r : exn + unit) :
  collection self <> None ->
  delete_document env self doc_id w = (r, w') ->
  exists deleted,
    calls w' = calls w ++ [CallCollectionGetWhere doc_id]
                       ++ List.map CallCollectionDelete deleted
    /\ (deleted = []
        \/ exists ids results,
             deleted = [ids] /\ ids <> []
             /\ collection_get_where env (calls w) doc_id = inr results
             /\ gr_ids results = Val ids)
    /\ files w' = files w /\ rows w' = rows w.
Proof.
  intros Hcoll H. unfold delete_document in H.
  destruct (collection self); [| contradiction].
  unfold bind, call, lift, command, ret in H.
  destruct (collection_get_where env (calls w) doc_id) as [e | results]
    eqn:Hget.
  { inversion H; subst. exists []. cbn. auto. }
  destruct (gr_ids results) as [| | ids] eqn:Hids.
  - inversion H; subst. exists []. cbn. auto.
  - cbn [truthy] in H. inversion H; subst. exists []. cbn. auto.
  - destruct ids as [| i ids].
    + cbn [truthy] in H. inversion H; subst. exists []. cbn. auto.
    + cbn [truthy] in H.
      exists [i :: ids].
      destruct (collection_delete env _ (i :: ids)); inversion H; subst;
        cbn [calls log files rows List.map].
      all: split; [now rewrite <- app_assoc |].
      all: split; [| split; reflexivity].
      all: right; exists (i :: ids), results.
      all: repeat split; auto; discriminate.
Qed.

End RouteBehaviour.

Section ExtractionBehaviour.

Variable float : Type.
Variable env : Env float.

Lemma lstrip_head (s : str) (c : char) (rest : str) :
  lstrip s = c :: rest -> is_space c = false.
Proof.
  induction s as [| d s IH]; cbn; [discriminate |].
  destruct (is_space d) eqn:Hd; [exact IH |].
  intros H. inversion H; subst. exact Hd.
Qed.

Lemma lstrip_fixed (s : str) :
  (forall c rest, s = c :: rest -> is_space c = false) -> lstrip s = s.
Proof.
  destruct s as [| c s]; [reflexivity |]. intros H. cbn.
  now rewrite (H c s eq_refl).
Qed.

Lemma lstrip_suffix (s : str) : exists front, s = front ++ lstrip s.
Proof.
  induction s as [| c s [front IH]]; [now exists [] |]. cbn.
  destruct (is_space c).
  - exists (c :: front). cbn. now f_equal.
  - now exists [].
Qed.

Lemma rstrip_prefix (s : str) : exists back, s = rstrip s ++ back.
Proof.
  unfold rstrip. destruct (lstrip_suffix (rev s)) as [front H].
  exists (rev front). rewrite <- rev_app_distr, <- H. now rewrite rev_involutive.
Qed.

Lemma strip_ends (s : str) :
  (forall c rest, strip s = c :: rest -> is_space c = false)
  /\ (forall c front, strip s = front ++ [c] -> is_space c = false).
Proof.
  unfold strip. split.
  - intros c rest H.
    destruct (rstrip_prefix (lstrip s)) as [back Hb]. rewrite H in Hb.
    cbn in Hb. eapply lstrip_head. exact Hb.
  - intros c front H. unfold rstrip in H.
    apply (f_equal (@rev char)) in H.
    rewrite rev_involutive, rev_app_distr in H. cbn in H.
    eapply lstrip_head. exact H.
Qed.

Lemma strip_fixed (s : str) :
  (forall c rest, s = c :: rest -> is_space c = false) ->
  (forall c front, s = front ++ [c] -> is_space c = false) ->
  strip s = s.
Proof.
  intros Hhead Hlast. unfold strip. rewrite lstrip_fixed by exact Hhead.
  unfold rstrip. rewrite lstrip_fixed; [apply rev_involutive |].
  intros c rest H. apply (Hlast c (rev rest)).
  apply (f_equal (@rev char)) in H. rewrite rev_involutive in H.
  rewrite H. reflexivity.
Qed.

Lemma strip_idempotent (s : str) : strip (strip s) = strip s.
Proof. destruct (strip_ends s). now apply strip_fixed. Qed.

(** X26. The text extracted from a PDF or a DOCX file has no white space at
    either end (stripping it again changes nothing), so for these files
    the empty-extraction check of ingestion asks whether the text is
    empty. *)
Theorem library_text_is_stripped (content : bytes) (text : str) :
  _extract_from_pdf env content = inr text
  \/ _extract_from_docx env content = inr text ->
  strip text = text
  /\ (forall c rest, text = c :: rest -> is_space c = false)
  /\ (forall c front, text = front ++ [c] -> is_space c = false)
  /\ (truthy (strip text) = truthy text).
Proof.
  intros H.
  assert (Hs : exists parts, text = concat_lines parts).
  { unfold _extract_from_pdf, _extract_from_docx in H. destruct H as [H | H].
    - destruct (negb (PDF_AVAILABLE env)); [discriminate |].
      destruct (pdf_page_texts env content) as [e | pages]; [discriminate |].
      exists pages. congruence.
    - destruct (negb (DOCX_AVAILABLE env)); [discriminate |].
      destruct (docx_paragraph_texts env content) as [e | paragraphs];
        [discriminate |].
      exists paragraphs. congruence. }
  destruct Hs as [parts ->]. unfold concat_lines.
  destruct (strip_ends (fold_left (fun text t => text ++ t ++ nl) parts []))
    as [Hhead Hlast].
  rewrite strip_idempotent. repeat split; assumption.
Qed.

End ExtractionBehaviour.

(** * The model at concrete inputs *)

Section Instances.

Import Examples ChunkModel.

(** C1 at a text of four words cut with a target size of 1 and an
    overlap of 1: the second chunk is [aaaa bbbb], the third
    [bbbb cccccccc]. *)
Lemma consecutive_chunks_overlap_witness :
  firstn 1 (words_of (lit "bbbb cccccccc"))
  = lastn 1 (words_of (lit "aaaa bbbb")).
Proof.
  apply (@consecutive_chunks_overlap example_settings sample_text
           (Some 1) (Some 1) 1 (lit "aaaa bbbb") (lit "bbbb cccccccc"));
    reflexivity.
Defined.

(** The words of the four-word text come back from its chunks cut with
    an overlap of 1. *)
Lemma deoverlap_reconstructs_text_witness :
  deoverlap 1
    (List.map words_of
       (Chunking.chunk_text example_settings sample_text (Some 1) (Some 1)))
  = [lit "aaaa"; lit "bbbb"; lit "cccccccc"; lit "dd"].
Proof.
  apply (@deoverlap_reconstructs_text example_settings sample_text
           (Some 1) (Some 1)).
  cbn. lia.
Defined.

(** C7 at one word of 28 letters, cost 7, against a target size of 1;
    and at a text that repeats its words, cut with an overlap of 1. *)
Lemma oversized_word_is_kept_witness :
  Chunking.word_cost (lit "antidisestablishmentarianism") = 7
  /\ Chunking.chunk_text example_settings
       (lit "  antidisestablishmentarianism ") (Some 1) (Some 0)
     = [lit "antidisestablishmentarianism"]
  /\ Chunking.chunk_text example_settings
       (lit "aaaa bbbb aaaa bbbb") (Some 1) (Some 1)
     = [lit "aaaa"; lit "aaaa bbbb"; lit "bbbb aaaa"; lit "aaaa bbbb"]
  /\ ChunkShape.appended_words 1
       (List.map words_of
          (Chunking.chunk_text example_settings
             (lit "aaaa bbbb aaaa bbbb") (Some 1) (Some 1)))
     = [lit "aaaa"; lit "bbbb"; lit "aaaa"; lit "bbbb"].
Proof.
  destruct (@oversized_word_is_kept example_settings
              (lit "  antidisestablishmentarianism ") (Some 1) (Some 0)
              (lit "antidisestablishmentarianism") eq_refl)
    as [Hone Hall].
  split; [reflexivity |]. split; [exact Hone |].
  split; [reflexivity |].
  exact (proj1 (Hall (lit "aaaa bbbb aaaa bbbb") (Some 1) (Some 1))).
Defined.

(** C10 at the text [hello world]. *)
Lemma no_chunks_branch_unreachable_witness :
  strip (lit "hello world") <> []
  /\ Chunking.chunk_text example_settings (lit "hello world") None None <> [].
Proof.
  assert (Hc : has_non_space (lit "hello world")).
  { exists 104%N. split; [now left | reflexivity]. }
  destruct (@no_chunks_branch_unreachable fixed4 env_ready (lit "d")
              (lit "notes.txt") hello_bytes (lit "text/plain") empty_world
              (lit "hello world") Hc) as (H1 & H2 & _).
  split; [exact H1 | apply H2].
Defined.

(** C4 at a store that holds nothing. *)
Lemma empty_result_short_circuits_witness :
  exists w2,
    query_documents env_empty_index sample_request empty_world
    = (inr (fallback_response env_empty_index), w2)
    /\ chat_calls (calls w2) = [].
Proof.
  eexists.
  destruct (@empty_result_short_circuits fixed4 env_empty_index ready_service
              sample_request empty_world
              (snd (get_embedding env_empty_index (lit "what?") empty_world))
              (snd (query_documents env_empty_index sample_request empty_world))
              [1; 2; 3] no_chunks)
    as (H1 & _ & _ & _ & H5); try reflexivity.
  split; [exact H1 | exact H5].
Defined.

(** C5 at a request for 1000 chunks against [MAX_TOP_K = 10]. *)
Lemma top_k_is_clamped_witness :
  clamp_top_k env_ready 1000 = 10
  /\ queried_sizes
       (calls (snd (query_documents env_ready sample_request empty_world)))
     = [10].
Proof.
  assert (Hmax : 1 <= MAX_TOP_K (settings env_ready)) by (cbn; lia).
  destruct (top_k_is_clamped env_ready sample_request empty_world Hmax)
    as (_ & _ & _ & _ & Hclamp & _).
  split; [apply Hclamp; cbn; lia | reflexivity].
Defined.

(** C6 at a store that returns two chunks at distances 0.1234 and 0.5:
    the scores are 0.8766 and 0.5. *)
Lemma similarity_is_rounded_complement_witness :
  List.map (@similarity_score fixed4)
           (match fst (query_documents env_ready sample_request empty_world)
            with
            | inr response => chunks_used response
            | inl _ => []
            end)
  = [8766; 5000]
  /\ exists distance,
       nth_error [1234; 5000] 1 = Some distance
       /\ 5000 = fround env_ready (fsub env_ready (float_of_int env_ready 1)
                                        distance) 4.
Proof.
  split; [reflexivity |].
  destruct (@similarity_is_rounded_complement fixed4 env_ready ready_service
              sample_request empty_world
              (snd (get_embedding env_ready (lit "what?") empty_world))
              (log (CallCollectionQuery [1; 2; 3] 10)
                   (snd (get_embedding env_ready (lit "what?") empty_world)))
              (snd (query_documents env_ready sample_request empty_world))
              [1; 2; 3] two_chunks [1234; 5000] []
              (match fst (query_documents env_ready sample_request empty_world)
               with
               | inr response => response
               | inl _ => fallback_response env_ready
               end)
              eq_refl eq_refl eq_refl eq_refl eq_refl
              1%nat
              {| chunk_id := lit "b_chunk_3"; text := lit "beta";
                 similarity_score := 5000 |}
              eq_refl)
    as (distance & Hd & _ & Hs).
  exists distance. split; [exact Hd | exact Hs].
Defined.

(** C3 where the store is there: one chunk, one identifier. *)
Lemma stored_ids_are_reconstructible_witness :
  ingest_hello env_ready
  = (inr hello_document, snd (ingest_hello env_ready))
  /\ added_ids (calls (snd (ingest_hello env_ready))) = [lit "d_chunk_0"]
  /\ reconstructed_chunk_ids (lit "d") hello_document = [lit "d_chunk_0"].
Proof.
  split; [reflexivity |].
  destruct (@stored_ids_are_reconstructible fixed4 env_ready ready_service
              (lit "d") (lit "notes.txt") hello_bytes (lit "text/plain")
              empty_world (snd (ingest_hello env_ready)) hello_document
              eq_refl eq_refl)
    as (Hadded & _).
  split; [exact Hadded | reflexivity].
Defined.

(** C3 fails where the service object is absent: the row records one
    chunk, the detail route would rebuild one identifier, and none was
    handed to the store. *)
Lemma ingestion_without_service_stores_no_ids :
  ingest_hello env_no_service
  = (inr hello_document, snd (ingest_hello env_no_service))
  /\ rows (snd (ingest_hello env_no_service)) = [hello_document]
  /\ chunk_count hello_document = 1
  /\ reconstructed_chunk_ids (lit "d") hello_document = [lit "d_chunk_0"]
  /\ added_ids (calls (snd (ingest_hello env_no_service))) = []
  /\ added_ids (calls (snd (ingest_hello env_no_service)))
     <> reconstructed_chunk_ids (lit "d") hello_document.
Proof.
  repeat split; try reflexivity. vm_compute. discriminate.
Qed.

(** C8 where [collection.add] rejects the embeddings. *)
Lemma upsert_failure_leaves_file_without_row_witness :
  fst (ingest_hello env_add_fails) = inl (AtAddDocuments, store_error)
  /\ files (snd (ingest_hello env_add_fails))
     = [(lit "./documents/d.txt", hello_bytes)]
  /\ rows (snd (ingest_hello env_add_fails)) = [].
Proof.
  set (path := file_path_of env_add_fails (lit "d") (lit "text/plain")).
  set (chunks := Chunking.chunk_text (settings env_add_fails)
                   (lit "hello world") None None).
  set (embedded :=
         get_embeddings_batch env_add_fails chunks
           (store_file path hello_bytes
              (log (CallOpenWrite path hello_bytes) empty_world))).
  assert (Hstrip : strip (lit "hello world") <> [])
    by (vm_compute; discriminate).
  assert (Hemb : embedded = (inr [[1; 2; 3]], snd embedded))
    by (vm_compute; reflexivity).
  assert (Hadd : add_documents env_add_fails ready_service (lit "d")
                   (List.map (chunk_id_of (lit "d")) (range (len chunks)))
                   [[1; 2; 3]] chunks
                   (List.map (chunk_metadata (lit "d") (lit "notes.txt"))
                             (range (len chunks)))
                   (snd embedded)
                 = (inl store_error, snd (ingest_hello env_add_fails)))
    by (vm_compute; reflexivity).
  destruct (@upsert_failure_leaves_file_without_row fixed4 env_add_fails
              ready_service
              (lit "d") (lit "notes.txt") hello_bytes (lit "text/plain")
              empty_world (snd embedded) (snd (ingest_hello env_add_fails))
              (lit "hello world") [[1; 2; 3]] store_error
              eq_refl eq_refl eq_refl Hstrip Hemb Hadd)
    as (Hrun & Hfiles & Hrows & _).
  split; [exact (f_equal fst Hrun) |].
  split; [exact Hfiles | exact Hrows].
Defined.

(** C8 fails: the embedding succeeded, the upsert failed and its error
    is what the operation raised, the file is in the file store, and
    there is no relational row for the document. *)
Lemma upsert_failure_writes_no_row :
  get_embeddings_batch env_add_fails [lit "hello world"]
    (store_file (lit "./documents/d.txt") hello_bytes
       (log (CallOpenWrite (lit "./documents/d.txt") hello_bytes)
            empty_world))
  = (inr [[1; 2; 3]],
     log (CallEmbeddings (inr [lit "hello world"]))
         (store_file (lit "./documents/d.txt") hello_bytes
            (log (CallOpenWrite (lit "./documents/d.txt") hello_bytes)
                 empty_world)))
  /\ fst (ingest_hello env_add_fails) = inl (AtAddDocuments, store_error)
  /\ In (lit "./documents/d.txt", hello_bytes)
        (files (snd (ingest_hello env_add_fails)))
  /\ ~ (exists row, In row (rows (snd (ingest_hello env_add_fails)))).
Proof.
  repeat split; try reflexivity.
  - now left.
  - intros [row Hrow]. exact Hrow.
Qed.

(** C9 at a service object without collection, and without the service
    object. *)
Lemma uninitialized_index_behaviour_witness :
  query env_uninitialized uninitialized_service [1; 2; 3] 5 empty_world
  = (inl not_initialized, empty_world)
  /\ query_documents env_no_service sample_request empty_world
     = (inl {| status_code := 500;
               detail := lit "Vector database not available" |},
        empty_world).
Proof.
  destruct (@uninitialized_index_behaviour fixed4 env_uninitialized)
    as [Hun _].
  destruct (Hun uninitialized_service eq_refl) as (_ & Hq & _).
  destruct (@uninitialized_index_behaviour fixed4 env_no_service)
    as [_ Hnone].
  destruct (Hnone eq_refl) as (Hroute & _).
  split; [apply Hq | apply Hroute].
Defined.

(** C9 fails for ingestion where the service object is absent: the
    operation returns the document, having persisted its row, and the
    vector store was not called. *)
Lemma ingestion_without_service_succeeds :
  vector_db_service env_no_service = None
  /\ fst (ingest_hello env_no_service) = inr hello_document
  /\ rows (snd (ingest_hello env_no_service)) = [hello_document]
  /\ index_calls (calls (snd (ingest_hello env_no_service))) = []
  /\ ~ (exists e, fst (ingest_hello env_no_service) = inl e).
Proof.
  repeat split; try reflexivity.
  intros [e He]. vm_compute in He. discriminate.
Qed.

End Instances.

Section MoreInstances.

Import Examples MoreExamples ChunkModel.

Lemma chunk_size_is_soft_bound_witness :
  Chunking.sum_cost (words_of (lit "aaaa bbbb")) = 2
  /\ (Chunking.sum_cost (words_of (lit "aaaa bbbb")) <= 1
      \/ (List.length (words_of (lit "aaaa bbbb")) <= 2)%nat).
Proof.
  split; [reflexivity |].
  apply (@chunk_size_is_soft_bound example_settings sample_text
           (Some 1) (Some 1) (lit "aaaa bbbb")).
  - cbn. lia.
  - vm_compute. right. left. reflexivity.
Defined.

Lemma short_text_is_one_chunk_witness :
  Chunking.chunk_text example_settings (lit "  hello   world ") None None
  = [lit "hello world"].
Proof.
  apply (@short_text_is_one_chunk example_settings (lit "  hello   world ")
           None None).
  - exists 104%N. split; [vm_compute; tauto | reflexivity].
  - vm_compute. discriminate.
Defined.

Lemma chunk_is_run_of_words_witness :
  exists before after,
    split sample_text = before ++ words_of (lit "bbbb cccccccc") ++ after.
Proof.
  destruct (@chunk_is_run_of_words example_settings sample_text
              (Some 1) (Some 1) (lit "bbbb cccccccc")) as (_ & _ & H).
  - vm_compute. tauto.
  - exact H.
Defined.

Lemma query_failures_are_500_witness :
  exists failure w',
    query_documents env_uninitialized sample_request empty_world
    = (inl failure, w')
    /\ detail failure = lit "Query failed: Vector database not initialized"
    /\ status_code failure = 500
    /\ exists service e,
         vector_db_service env_uninitialized = Some service
         /\ query_body env_uninitialized service sample_request empty_world
            = (inl e, w')
         /\ detail failure = lit "Query failed: " ++ exn_str e.
Proof.
  exists {| status_code := 500;
            detail := lit "Query failed: Vector database not initialized" |}.
  exists (snd (query_documents env_uninitialized sample_request empty_world)).
  split; [reflexivity |]. split; [reflexivity |].
  destruct (@query_failures_are_500 fixed4 env_uninitialized sample_request
              empty_world
              (snd (query_documents env_uninitialized sample_request
                                    empty_world))
              {| status_code := 500;
                 detail := lit "Query failed: Vector database not initialized" |}
              eq_refl)
    as [Hstatus [(Hnone & _) | Hcause]].
  - discriminate Hnone.
  - split; [exact Hstatus | exact Hcause].
Defined.

Lemma answered_query_makes_three_calls_witness :
  calls (snd (query_documents env_ready sample_request empty_world))
  = [CallEmbeddings (inl (lit "what?"));
     CallCollectionQuery [1; 2; 3] 10;
     CallChat system_message
              (build_prompt (lit "what?") [lit "alpha"; lit "beta"])].
Proof.
  destruct (@answered_query_makes_three_calls fixed4 env_ready ready_service
              sample_request empty_world
              (snd (get_embedding env_ready (lit "what?") empty_world))
              (log (CallCollectionQuery [1; 2; 3] 10)
                   (snd (get_embedding env_ready (lit "what?") empty_world)))
              (snd (query_documents env_ready sample_request empty_world))
              [1; 2; 3] two_chunks
              (match fst (query_documents env_ready sample_request empty_world)
               with
               | inr response => response
               | inl _ => fallback_response env_ready
               end)
              eq_refl eq_refl eq_refl) as (H & _).
  - discriminate.
  - reflexivity.
  - exact H.
Defined.

Lemma chunks_keep_the_ranking_witness :
  List.map (@chunk_id fixed4)
           (match fst (query_documents env_ready sample_request empty_world)
            with
            | inr response => chunks_used response
            | inl _ => []
            end)
  = firstn 2 [lit "a_chunk_0"; lit "b_chunk_3"].
Proof.
  destruct (@chunks_keep_the_ranking fixed4 env_ready ready_service
              sample_request empty_world
              (snd (get_embedding env_ready (lit "what?") empty_world))
              (log (CallCollectionQuery [1; 2; 3] 10)
                   (snd (get_embedding env_ready (lit "what?") empty_world)))
              (snd (query_documents env_ready sample_request empty_world))
              [1; 2; 3] two_chunks
              (match fst (query_documents env_ready sample_request empty_world)
               with
               | inr response => response
               | inl _ => fallback_response env_ready
               end)
              eq_refl eq_refl eq_refl eq_refl) as (H & _).
  exact H.
Defined.

Lemma document_ids_are_the_distinct_sources_witness :
  NoDup (match fst (query_documents env_ready sample_request empty_world)
         with
         | inr response => document_ids response
         | inl _ => []
         end)
  /\ In (lit "b")
        (match fst (query_documents env_ready sample_request empty_world)
         with
         | inr response => document_ids response
         | inl _ => []
         end).
Proof.
  destruct (@document_ids_are_the_distinct_sources fixed4 env_ready
              ready_service sample_request empty_world
              (snd (get_embedding env_ready (lit "what?") empty_world))
              (log (CallCollectionQuery [1; 2; 3] 10)
                   (snd (get_embedding env_ready (lit "what?") empty_world)))
              (snd (query_documents env_ready sample_request empty_world))
              [1; 2; 3] two_chunks
              (match fst (query_documents env_ready sample_request empty_world)
               with
               | inr response => response
               | inl _ => fallback_response env_ready
               end)
              eq_refl eq_refl eq_refl) as (Hnodup & Hin).
  - discriminate.
  - reflexivity.
  - split; [exact Hnodup |]. apply Hin.
    exists [(lit "document_id", MStr (lit "b"))].
    split; [right; left; reflexivity | reflexivity].
Defined.

Lemma missing_distances_count_as_zero_witness :
  List.map (@similarity_score fixed4)
           (match fst (query_documents env_no_distances sample_request
                                       empty_world)
            with
            | inr response => chunks_used response
            | inl _ => []
            end)
  = [10000; 10000]
  /\ @similarity_score fixed4
       {| chunk_id := lit "a_chunk_0"; text := lit "alpha";
          similarity_score := 10000 |}
     = fround env_no_distances
              (fsub env_no_distances (float_of_int env_no_distances 1)
                    (float_of_int env_no_distances 0)) 4.
Proof.
  split; [reflexivity |].
  apply (@missing_distances_count_as_zero fixed4 env_no_distances
           ready_service sample_request empty_world
           (snd (get_embedding env_no_distances (lit "what?") empty_world))
           (log (CallCollectionQuery [1; 2; 3] 10)
                (snd (get_embedding env_no_distances (lit "what?")
                                    empty_world)))
           (snd (query_documents env_no_distances sample_request empty_world))
           [1; 2; 3]
           {| qr_ids := qr_ids two_chunks;
              qr_documents := qr_documents two_chunks;
              qr_metadatas := qr_metadatas two_chunks;
              qr_distances := Missing |}
           (match fst (query_documents env_no_distances sample_request
                                       empty_world)
            with
            | inr response => response
            | inl _ => fallback_response env_no_distances
            end));
    try reflexivity.
  vm_compute. left. reflexivity.
Defined.

Lemma row_is_written_only_on_return_witness :
  rows (snd (ingest_hello env_add_fails)) = []
  /\ rows (snd (ingest_hello env_ready)) = [hello_document].
Proof.
  split.
  - apply (@row_is_written_only_on_return fixed4 env_add_fails (lit "d")
             (lit "notes.txt") hello_bytes (lit "text/plain") empty_world
             (snd (ingest_hello env_add_fails))
             (inl (AtAddDocuments, store_error))).
    reflexivity.
  - apply (@row_is_written_only_on_return fixed4 env_ready (lit "d")
             (lit "notes.txt") hello_bytes (lit "text/plain") empty_world
             (snd (ingest_hello env_ready)) (inr hello_document)).
    reflexivity.
Defined.

Lemma file_outlives_any_later_failure_witness :
  files (snd (ingest_hello env_add_fails))
  = [(lit "./documents/d.txt", hello_bytes)].
Proof.
  destruct (@file_outlives_any_later_failure fixed4 env_add_fails (lit "d")
              (lit "notes.txt") hello_bytes (lit "text/plain") empty_world
              (snd (ingest_hello env_add_fails)) AtAddDocuments store_error
              eq_refl) as [H _].
  apply H. discriminate.
Defined.

Lemma ingestion_is_one_batch_witness :
  exists embeddings,
    calls (snd (ingest_hello env_ready))
    = [CallOpenWrite (lit "./documents/d.txt") hello_bytes;
       CallEmbeddings (inr [lit "hello world"]);
       CallCollectionAdd [lit "d_chunk_0"] embeddings [lit "hello world"]
                         [chunk_metadata (lit "d") (lit "notes.txt") 0];
       CallCommit hello_document].
Proof.
  destruct (@ingestion_is_one_batch fixed4 env_ready ready_service (lit "d")
              (lit "notes.txt") hello_bytes (lit "text/plain") empty_world
              (snd (ingest_hello env_ready)) hello_document
              eq_refl eq_refl) as ([embeddings H] & _).
  exists embeddings. exact H.
Defined.

Lemma ingested_document_is_found_witness :
  lookup_document (lit "d") (snd (ingest_hello env_ready))
  = Some hello_document.
Proof.
  destruct (@ingested_document_is_found fixed4 env_ready (lit "d")
              (lit "notes.txt") hello_bytes (lit "text/plain") empty_world
              (snd (ingest_hello env_ready)) hello_document
              eq_refl eq_refl) as [H _].
  exact H.
Defined.

Lemma detail_route_survives_the_store_witness :
  exists chunks,
    fst (get_document env_ready (lit "d") (snd (ingest_hello env_ready)))
    = inr {| detail_document := hello_document; detail_chunks := chunks |}
    /\ chunks = combine [lit "d_chunk_0"] [lit "text"].
Proof.
  destruct (@detail_route_survives_the_store fixed4 env_ready (lit "d")
              (snd (ingest_hello env_ready)) hello_document eq_refl)
    as [(chunks & Hrun & _ & Hstore) _].
  exists chunks. split; [exact Hrun |].
  destruct (Hstore ready_service eq_refl) as [_ Hready].
  destruct Hready as [_ Hpairs]; [discriminate |].
  apply Hpairs. reflexivity.
Defined.

Lemma missing_credential_stops_before_any_request_witness :
  query_documents env_without_key sample_request empty_world
  = (inl {| status_code := 500;
            detail := lit "Query failed: OPENROUTER_API_KEY is not set. Please set it in your environment variables." |},
     empty_world)
  /\ fst (ingest_hello env_without_key) = inl (AtEmbeddings, api_key_not_set).
Proof.
  destruct (@missing_credential_stops_before_any_request fixed4
              env_without_key eq_refl) as (_ & _ & _ & Hq & _).
  split; [| reflexivity].
  apply (Hq ready_service). reflexivity.
Defined.

Lemma upload_failures_are_400_401_500_witness :
  exists failure w',
    upload_document env_uninitialized upload_context (lit "d") hello_upload
                    empty_world
    = (inl failure, w')
    /\ detail failure = lit "Upload failed: Vector database not initialized"
    /\ (status_code failure = 400 \/ status_code failure = 401
        \/ status_code failure = 500).
Proof.
  exists {| status_code := 500;
            detail := lit "Upload failed: Vector database not initialized" |}.
  exists (snd (upload_document env_uninitialized upload_context (lit "d")
                               hello_upload empty_world)).
  split; [reflexivity |]. split; [reflexivity |].
  apply (@upload_failures_are_400_401_500 fixed4 env_uninitialized
           upload_context (lit "d") hello_upload empty_world
           (snd (upload_document env_uninitialized upload_context (lit "d")
                                 hello_upload empty_world))
           {| status_code := 500;
              detail := lit "Upload failed: Vector database not initialized" |}).
  reflexivity.
Defined.

Lemma refused_upload_has_no_effect_witness :
  snd (upload_document env_ready upload_context (lit "d") untyped_upload
                       empty_world)
  = empty_world.
Proof.
  destruct (@refused_upload_has_no_effect fixed4 env_ready upload_context
              (lit "d") untyped_upload empty_world) as [H _].
  - left. reflexivity.
  - exact H.
Defined.

Lemma accepted_upload_is_persisted_witness :
  exists response w',
    upload_document env_ready upload_context (lit "d") hello_upload
                    empty_world
    = (inr response, w')
    /\ upload_document_id response = lit "d"
    /\ 1 <= upload_chunk_count response.
Proof.
  exists {| upload_document_id := lit "d";
            upload_message := lit "Document uploaded and indexed successfully";
            upload_chunk_count := 1 |}.
  exists (snd (upload_document env_ready upload_context (lit "d")
                               hello_upload empty_world)).
  split; [reflexivity |].
  destruct (@accepted_upload_is_persisted fixed4 env_ready upload_context
              (lit "d") hello_upload empty_world
              (snd (upload_document env_ready upload_context (lit "d")
                                    hello_upload empty_world))
              {| upload_document_id := lit "d";
                 upload_message :=
                   lit "Document uploaded and indexed successfully";
                 upload_chunk_count := 1 |}
              eq_refl) as (Hid & Hcount & _).
  split; [exact Hid | exact Hcount].
Defined.


Lemma delete_removes_what_the_store_found_witness :
  calls (snd (delete_document env_two_pages ready_service (lit "d")
                              empty_world))
  = [CallCollectionGetWhere (lit "d"); CallCollectionDelete [lit "d_chunk_0"]].
Proof.
  destruct (@delete_removes_what_the_store_found fixed4 env_two_pages
              ready_service (lit "d") empty_world
              (snd (delete_document env_two_pages ready_service (lit "d")
                                    empty_world))
              (inr tt)) as (deleted & Hcalls & _).
  - discriminate.
  - reflexivity.
  - reflexivity.
Defined.

Lemma library_text_is_stripped_witness :
  _extract_from_pdf env_two_pages [] = inr (lit "page one " ++ nl ++ lit "two")
  /\ strip (lit "page one " ++ nl ++ lit "two")
     = lit "page one " ++ nl ++ lit "two".
Proof.
  split; [reflexivity |].
  destruct (@library_text_is_stripped fixed4 env_two_pages []
              (lit "page one " ++ nl ++ lit "two")) as (H & _).
  - left. reflexivity.
  - exact H.
Defined.

End MoreInstances.
